(** * The [camelcase] rule of ESLint (lib/rules/camelcase.js)

    A shallow embedding of the rule: the JavaScript built-ins it calls
    ([String.prototype.substr], [indexOf], [replace] with the rule's
    fixed pattern, [RegExp.prototype.exec]), the affix and exception
    matchers, the option processing of [create], the [Identifier]
    handler over an ESTree given as a store of nodes, and the [reported]
    list that removes duplicate reports. *)

From Stdlib Require Import String Ascii List ZArith Bool Lia.
Import ListNotations.

Local Open Scope string_scope.
Local Open Scope Z_scope.

(* ------------------------------------------------------------------ *)
(** * Completions: a JavaScript call returns or throws *)

Inductive JsError : Type :=
| TypeError
| SyntaxError.

Inductive Completion (A : Type) : Type :=
| Normal (a : A)
| Throw (e : JsError).

Arguments Normal {A} a.
Arguments Throw {A} e.

Definition bind {A B : Type} (c : Completion A) (k : A -> Completion B)
  : Completion B :=
  match c with
  | Normal a => k a
  | Throw e => Throw e
  end.

Notation "x <- c ;; k" := (bind c (fun x => k))
  (at level 61, c at next level, right associativity).

(** [Array.prototype.map] with a callback that may throw: the first
    exception ends the call. *)
Fixpoint mapM {A B : Type} (f : A -> Completion B) (l : list A)
  : Completion (list B) :=
  match l with
  | [] => Normal []
  | a :: l' => b <- f a ;; bs <- mapM f l' ;; Normal (b :: bs)
  end.

(* ------------------------------------------------------------------ *)
(** * JavaScript built-ins used by the rule *)

Module JS.

(** Strings are sequences of code units; offsets and lengths are
    integers, since the rule uses [-1] as its "no match" offset. *)
Definition len (s : string) : Z := Z.of_nat (String.length s).

Fixpoint drop (n : nat) (s : string) : string :=
  match n, s with
  | O, _ => s
  | S _, EmptyString => EmptyString
  | S n', String _ s' => drop n' s'
  end.

Fixpoint take (n : nat) (s : string) : string :=
  match n, s with
  | O, _ => EmptyString
  | S _, EmptyString => EmptyString
  | S n', String c s' => String c (take n' s')
  end.

(** [s.substr(start, length)] (ECMAScript B.2.3.1); [length = None]
    is the call with one argument. *)
Definition substr (s : string) (start : Z) (length : option Z) : string :=
  let size := len s in
  let intStart :=
    if start <? 0 then Z.max (size + start) 0 else Z.min start size in
  let resultLength :=
    match length with
    | None => size - intStart
    | Some l => Z.min (Z.max l 0) (size - intStart)
    end in
  if resultLength <=? 0 then EmptyString
  else take (Z.to_nat resultLength) (drop (Z.to_nat intStart) s).

Fixpoint startsWith (s pat : string) {struct pat} : bool :=
  match pat, s with
  | EmptyString, _ => true
  | String _ _, EmptyString => false
  | String c pat', String d s' => Ascii.eqb c d && startsWith s' pat'
  end.

(** [indexOfFrom s pat pos]: [s] is the part of the receiver that
    starts at offset [pos]. *)
Fixpoint indexOfFrom (s pat : string) (pos : Z) : Z :=
  if startsWith s pat then pos
  else match s with
       | EmptyString => -1
       | String _ s' => indexOfFrom s' pat (pos + 1)
       end.

(** [s.indexOf(pat)] *)
Definition indexOf (s pat : string) : Z := indexOfFrom s pat 0.

Definition isUnderscore (c : ascii) : bool := Ascii.eqb c "_"%char.

(** The string holds underscores only. *)
Fixpoint allUnderscores (s : string) : bool :=
  match s with
  | EmptyString => true
  | String c s' => isUnderscore c && allUnderscores s'
  end.

(** The string does not begin with an underscore. *)
Definition noLeadingUnderscore (s : string) : Prop :=
  match s with
  | EmptyString => True
  | String c _ => isUnderscore c = false
  end.

Fixpoint dropLeadingUnderscores (s : string) : string :=
  match s with
  | EmptyString => EmptyString
  | String c s' => if isUnderscore c then dropLeadingUnderscores s' else s
  end.

(** Removes the run of underscores that ends the string; the result
    is empty when the string holds underscores only. *)
Fixpoint dropTrailingUnderscores (s : string) : string :=
  match s with
  | EmptyString => EmptyString
  | String c s' =>
      match dropTrailingUnderscores s' with
      | EmptyString => if isUnderscore c then EmptyString
                       else String c EmptyString
      | r => String c r
      end
  end.

(** [s.replace(/^_+|_+$/g, "")]: the global replace deletes the match
    of [^_+] at offset 0, if any, and then the match of [_+$], if
    any is left. *)
Definition replaceEdgeUnderscores (s : string) : string :=
  dropTrailingUnderscores (dropLeadingUnderscores s).

(** The result of a successful [RegExp.prototype.exec]: [match.index]
    and [match[0]]. *)
Record RegExpMatch : Type := mkMatch {
  index : Z;
  match0 : string
}.

(** A [RegExp] instance, seen through [exec]. The instances of the
    model carry no [lastIndex]: they stand for regular expressions
    without the [g] and [y] flags, whose [exec] is a function of the
    subject string. *)
Record RegExp : Type := mkRegExp {
  exec : string -> option RegExpMatch
}.

(** [re.test(value)] *)
Definition test (re : RegExp) (value : string) : bool :=
  match exec re value with
  | Some _ => true
  | None => false
  end.

(** [Array.prototype.indexOf] on an array of node references, which
    are compared by identity. *)
Fixpoint arrayIndexOfFrom (l : list nat) (x : nat) (pos : Z) : Z :=
  match l with
  | [] => -1
  | y :: l' => if Nat.eqb y x then pos else arrayIndexOfFrom l' x (pos + 1)
  end.

Definition arrayIndexOf (l : list nat) (x : nat) : Z :=
  arrayIndexOfFrom l x 0.

(** [String.prototype.toUpperCase] on the ASCII range. *)
Definition asciiUpper (c : ascii) : ascii :=
  let n := nat_of_ascii c in
  if (97 <=? n)%nat && (n <=? 122)%nat then ascii_of_nat (n - 32) else c.

Fixpoint asciiToUpperCase (s : string) : string :=
  match s with
  | EmptyString => EmptyString
  | String c s' => String (asciiUpper c) (asciiToUpperCase s')
  end.

(** The values an option of the rule can hold. *)
Inductive Value : Type :=
| Undefined
| Null
| Boolean (b : bool)
| Number (z : Z)
| Str (s : string).

(** [v || ""] *)
Definition orEmptyString (v : Value) : Value :=
  match v with
  | Undefined | Null | Boolean false | Number 0 | Str EmptyString =>
      Str EmptyString
  | _ => v
  end.

(** [v === "s"] *)
Definition strictEqualsString (v : Value) (s : string) : bool :=
  match v with
  | Str s' => String.eqb s' s
  | _ => false
  end.

End JS.

(* ------------------------------------------------------------------ *)
(** * A backtracking matcher for a fragment of the pattern language

    Used to build concrete [RegExp] instances: [exec] returns the
    leftmost match, alternatives are tried left to right and [*] is
    greedy, as in ECMAScript. *)

Module Regex.

Inductive regex : Type :=
| Eps
| Chr (c : ascii)
| Any
| OneOf (cs : list ascii)
| Seq (r1 r2 : regex)
| Alt (r1 r2 : regex)
| Star (r : regex).

Definition isLineTerminator (c : ascii) : bool :=
  Ascii.eqb c "010"%char || Ascii.eqb c "013"%char.

(** [run r s k]: match [r] at the start of [s] and pass what is left
    to the continuation [k]; [None] makes the matcher backtrack. An
    iteration of [*] that consumes nothing is rejected. *)
Fixpoint run {A : Type} (r : regex) (s : string)
  (k : string -> option A) {struct r} : option A :=
  match r with
  | Eps => k s
  | Chr c =>
      match s with
      | String d s' => if Ascii.eqb c d then k s' else None
      | EmptyString => None
      end
  | Any =>
      match s with
      | String d s' => if isLineTerminator d then None else k s'
      | EmptyString => None
      end
  | OneOf cs =>
      match s with
      | String d s' => if existsb (Ascii.eqb d) cs then k s' else None
      | EmptyString => None
      end
  | Seq r1 r2 => run r1 s (fun s' => run r2 s' k)
  | Alt r1 r2 =>
      match run r1 s k with
      | Some a => Some a
      | None => run r2 s k
      end
  | Star r' =>
      (fix iter (fuel : nat) (s : string) {struct fuel} : option A :=
         match fuel with
         | O => k s
         | S fuel' =>
             match run r' s (fun s' =>
                      if (String.length s' <? String.length s)%nat
                      then iter fuel' s' else None) with
             | Some a => Some a
             | None => k s
             end
         end) (String.length s) s
  end.

Fixpoint execFrom (r : regex) (s : string) (pos : Z)
  : option JS.RegExpMatch :=
  match run r s (fun rest => Some rest) with
  | Some rest =>
      Some (JS.mkMatch pos
              (JS.take (String.length s - String.length rest) s))
  | None =>
      match s with
      | EmptyString => None
      | String _ s' => execFrom r s' (pos + 1)
      end
  end.

Definition compile (r : regex) : JS.RegExp :=
  JS.mkRegExp (fun value => execFrom r value 0).

Definition Plus (r : regex) : regex := Seq r (Star r).
Definition Opt (r : regex) : regex := Alt r Eps.

Fixpoint Lit (s : string) : regex :=
  match s with
  | EmptyString => Eps
  | String c s' => Seq (Chr c) (Lit s')
  end.

Definition digit : regex :=
  OneOf (list_ascii_of_string "0123456789").

End Regex.

(* ------------------------------------------------------------------ *)
(** * The syntax tree (ESTree), as the rule reads it *)

Module ESTree.

(** A node is known by its identity: its place in the store. *)
Definition NodeRef : Type := nat.
Bind Scope nat_scope with NodeRef.

(** The properties of a node that the rule reads; a property the
    node does not have reads as [undefined] ([None]). *)
Record ASTNode : Type := mkNode {
  type : string;
  name : option string;
  parent : option NodeRef;
  object : option NodeRef;
  property : option NodeRef;
  left : option NodeRef;
  right : option NodeRef;
  key : option NodeRef;
  value : option NodeRef
}.

Definition AST : Type := list ASTNode.

(** Reading a property of what a reference holds. Reading through
    [undefined] throws a [TypeError]; so does, in the model, a
    reference to no node of the store. *)
Definition deref (ast : AST) (r : option NodeRef) : Completion ASTNode :=
  match r with
  | None => Throw TypeError
  | Some i =>
      match nth_error ast i with
      | Some n => Normal n
      | None => Throw TypeError
      end
  end.

(** [a === b] on two references that may be [undefined]. *)
Definition sameNode (a b : option NodeRef) : bool :=
  match a, b with
  | Some i, Some j => Nat.eqb i j
  | None, None => true
  | _, _ => false
  end.

(** [a === b] on two names that may be [undefined]. *)
Definition sameName (a b : option string) : bool :=
  match a, b with
  | Some s, Some t => String.eqb s t
  | None, None => true
  | _, _ => false
  end.

(** The shape the parser gives a tree, as far as the rule relies on
    it: every reference of a node leads to a node of the store, an
    identifier has a name and a parent, a member access has an
    object, a property and a parent, and an assignment has its two
    sides. *)
Definition resolves (ast : AST) (r : option NodeRef) : bool :=
  match r with
  | None => true
  | Some i =>
      match nth_error ast i with
      | Some _ => true
      | None => false
      end
  end.

Definition present {A : Type} (r : option A) : bool :=
  match r with
  | Some _ => true
  | None => false
  end.

Definition wellFormedNode (ast : AST) (n : ASTNode) : bool :=
  forallb (resolves ast)
    [parent n; object n; property n; left n; right n; key n; value n]
  && (if String.eqb (type n) "Identifier"
      then present (name n) && present (parent n) else true)
  && (if String.eqb (type n) "MemberExpression"
      then present (object n) && present (property n) && present (parent n)
      else true)
  && (if String.eqb (type n) "AssignmentExpression"
      then present (left n) && present (right n) else true).

Definition wellFormed (ast : AST) : bool :=
  forallb (wellFormedNode ast) ast.

(** Node builders for the programs of the examples. *)
Definition other (ty : string) (p : option NodeRef) : ASTNode :=
  mkNode ty None p None None None None None None.
Definition ident (nm : string) (p : NodeRef) : ASTNode :=
  mkNode "Identifier" (Some nm) (Some p) None None None None None None.
Definition member (p obj prop : NodeRef) : ASTNode :=
  mkNode "MemberExpression" None (Some p) (Some obj) (Some prop)
    None None None None.
Definition assign (p l r : NodeRef) : ASTNode :=
  mkNode "AssignmentExpression" None (Some p) None None
    (Some l) (Some r) None None.
Definition prop (p k v : NodeRef) : ASTNode :=
  mkNode "Property" None (Some p) None None None None (Some k) (Some v).

End ESTree.

(* ------------------------------------------------------------------ *)
(** * The rule *)

Module Camelcase.
Import JS ESTree.

(** An element of an option array, as the configuration gives it: a
    string or an ESTree RegExpLiteral [{regex: {pattern, flags}}]. *)
Record RegExpLiteral : Type := mkRegExpLiteral {
  pattern : string;
  flags : option string
}.

Inductive StringOrRegExp : Type :=
| OfString (s : string)
| OfRegExpLiteral (regex : RegExpLiteral).

(** An element after [processArrayOfStringOrRegExp]: [typeof] tells a
    string from a [RegExp]. *)
Inductive Allowed : Type :=
| AString (s : string)
| ARegExp (re : RegExp).

(** [context.options[0]] *)
Record Options : Type := mkOptions {
  o_properties : Value;
  o_allowedPrefixes : option (list StringOrRegExp);
  o_allowedSuffixes : option (list StringOrRegExp);
  o_exceptions : option (list StringOrRegExp)
}.

(** The variables of [create] that the helpers and the handler close
    over, once the options are processed. *)
Record Config : Type := mkConfig {
  properties : Value;
  allowedPrefixes : option (list Allowed);
  allowedSuffixes : option (list Allowed);
  exceptions : option (list Allowed)
}.

(** A call of [context.report(node, message, data)]. *)
Record Violation : Type := mkViolation {
  v_node : NodeRef;
  v_message : string;
  v_name : option string
}.

(** The state of one run: the [reported] array and the calls of
    [context.report] made so far. *)
Record RuleState : Type := mkState {
  reported : list NodeRef;
  messages : list Violation
}.

Definition initialState : RuleState := mkState [] [].

Definition template : string := "Identifier '{{name}}' is not in camel case.".

(** The message with [{{name}}] filled in. *)
Definition rendered (v : Violation) : string :=
  "Identifier '" ++ match v_name v with Some s => s | None => "{{name}}" end
  ++ "' is not in camel case.".

(** [node.name], read for the data of the message. *)
Definition nameOf (ast : AST) (node : NodeRef) : option string :=
  match nth_error ast node with
  | Some n => name n
  | None => None
  end.

Definition report (ast : AST) (node : NodeRef) (st : RuleState)
  : RuleState :=
  if arrayIndexOf (reported st) node <? 0 then
    mkState (reported st ++ [node])
            (messages st ++ [mkViolation node template (nameOf ast node)])
  else st.

Definition startAfterStringPrefix (value prefix : string) : Z :=
  let start := len prefix in
  if start >=? len value then -1
  else if negb (String.eqb (substr value 0 (Some (len prefix))) prefix)
       then -1
  else start.

Definition startAfterRegExpPrefix (value : string) (prefix : RegExp) : Z :=
  match exec prefix value with
  | None => -1
  | Some m => if negb (index m =? 0) then -1 else len (match0 m)
  end.

Definition endBeforeStringSuffix (value suffix : string) : Z :=
  let ends := len value - len suffix in
  if ends <=? 0 then -1
  else if negb (String.eqb (substr value ends None) suffix) then -1
  else ends.

Definition endBeforeRegExpSuffix (value : string) (suffix : RegExp) : Z :=
  match exec suffix value with
  | None => -1
  | Some m =>
      let ends := index m in
      if negb (ends + len (match0 m) =? len value) then -1 else ends
  end.

(** The offset computed in the body of the loop of [removePrefix]. *)
Definition startAfter (value : string) (prefix : Allowed) : Z :=
  match prefix with
  | AString s => startAfterStringPrefix value s
  | ARegExp re => startAfterRegExpPrefix value re
  end.

Fixpoint removePrefix (value : string) (allowed : list Allowed) : string :=
  match allowed with
  | [] => value
  | prefix :: rest =>
      let start := startAfter value prefix in
      if start >=? 0 then substr value start None
      else removePrefix value rest
  end.

(** The offset computed in the body of the loop of [removeSuffix]. *)
Definition endBefore (value : string) (suffix : Allowed) : Z :=
  match suffix with
  | AString s => endBeforeStringSuffix value s
  | ARegExp re => endBeforeRegExpSuffix value re
  end.

Fixpoint removeSuffix (value : string) (allowed : list Allowed) : string :=
  match allowed with
  | [] => value
  | suffix :: rest =>
      let ends := endBefore value suffix in
      if ends >=? 0 then substr value 0 (Some ends)
      else removeSuffix value rest
  end.

Fixpoint matchExceptions (value : string) (allowed : list Allowed) : bool :=
  match allowed with
  | [] => false
  | exception :: rest =>
      let isException :=
        match exception with
        | AString s => String.eqb s value
        | ARegExp re => test re value
        end in
      if isException then true else matchExceptions value rest
  end.

Definition checkableName (cfg : Config) (name : string) : string :=
  let name := replaceEdgeUnderscores name in
  let name := match allowedPrefixes cfg with
              | Some allowed => removePrefix name allowed
              | None => name
              end in
  let name := match allowedSuffixes cfg with
              | Some allowed => removeSuffix name allowed
              | None => name
              end in
  name.

(** [exceptions && matchExceptions(name, exceptions)] *)
Definition isException (cfg : Config) (name : string) : bool :=
  match exceptions cfg with
  | Some allowed => matchExceptions name allowed
  | None => false
  end.

Section Rule.

(** [String.prototype.toUpperCase] and the [RegExp] constructor, which
    throws a [SyntaxError] on a pattern or flags it rejects. *)
Variable toUpperCase : string -> string.
Variable newRegExp : string -> string -> Completion RegExp.

Definition isUnderscored (name : string) : bool :=
  (indexOf name "_" >? -1) && negb (String.eqb name (toUpperCase name)).

Definition processArrayOfStringOrRegExp (iv : option (list StringOrRegExp))
  : Completion (option (list Allowed)) :=
  match iv with
  | Some l =>
      rv <- mapM (fun elt =>
                    match elt with
                    | OfRegExpLiteral regex =>
                        re <- newRegExp (pattern regex)
                                (match flags regex with
                                 | None | Some EmptyString => EmptyString
                                 | Some f => f
                                 end) ;;
                        Normal (ARegExp re)
                    | OfString s => Normal (AString s)
                    end) l ;;
      Normal (Some rv)
  | None => Normal None
  end.

(** The set-up part of [create], before the handlers are returned;
    [None] is a run without options ([context.options[0] || {}]). *)
Definition create (options0 : option Options) : Completion Config :=
  let options := match options0 with
                 | Some o => o
                 | None => mkOptions Undefined None None None
                 end in
  let properties := orEmptyString (o_properties options) in
  allowedPrefixes <- processArrayOfStringOrRegExp (o_allowedPrefixes options) ;;
  allowedSuffixes <- processArrayOfStringOrRegExp (o_allowedSuffixes options) ;;
  exceptions <- processArrayOfStringOrRegExp (o_exceptions options) ;;
  let properties :=
    if negb (strictEqualsString properties "always")
       && negb (strictEqualsString properties "never")
    then Str "always" else properties in
  Normal (mkConfig properties allowedPrefixes allowedSuffixes exceptions).

(** The [Identifier] handler. Every path reads the tree first and
    calls [report] last, so a run that throws has reported nothing. *)
Definition Identifier (cfg : Config) (ast : AST) (node : NodeRef)
  (st : RuleState) : Completion RuleState :=
  n <- deref ast (Some node) ;;
  rawName <- match name n with
             | Some s => Normal s
             | None => Throw TypeError
             end ;;
  let name := checkableName cfg rawName in
  p <- deref ast (parent n) ;;
  let effectiveParent :=
    if String.eqb (type p) "MemberExpression" then parent p else parent n in
  if isException cfg name then Normal st
  else if String.eqb (type p) "MemberExpression" then
    if strictEqualsString (properties cfg) "never" then Normal st
    else
      obj <- deref ast (object p) ;;
      if String.eqb (type obj) "Identifier"
         && sameName (ESTree.name obj) (ESTree.name n)
         && isUnderscored name
      then Normal (report ast node st)
      else
        ep <- deref ast effectiveParent ;;
        cond <- (if String.eqb (type ep) "AssignmentExpression"
                    && isUnderscored name
                 then
                   r <- deref ast (right ep) ;;
                   if negb (String.eqb (type r) "MemberExpression")
                   then Normal true
                   else
                     l <- deref ast (left ep) ;;
                     if String.eqb (type l) "MemberExpression" then
                       lp <- deref ast (property l) ;;
                       Normal (sameName (ESTree.name lp) (ESTree.name n))
                     else Normal false
                 else Normal false) ;;
        Normal (if cond then report ast node st else st)
  else if String.eqb (type p) "Property" then
    if strictEqualsString (properties cfg) "never" then Normal st
    else
      inPattern <- match parent p with
                   | None => Normal false
                   | Some _ =>
                       pp <- deref ast (parent p) ;;
                       Normal (String.eqb (type pp) "ObjectPattern")
                   end ;;
      if inPattern && sameNode (key p) (Some node)
         && negb (sameNode (value p) (Some node))
      then Normal st
      else
        cond <- (if isUnderscored name then
                   ep <- deref ast effectiveParent ;;
                   Normal (negb (String.eqb (type ep) "CallExpression"))
                 else Normal false) ;;
        Normal (if cond then report ast node st else st)
  else
    cond <- (if isUnderscored name then
               ep <- deref ast effectiveParent ;;
               Normal (negb (String.eqb (type ep) "CallExpression"))
             else Normal false) ;;
    Normal (if cond then report ast node st else st).

(** The driver calls the handler on each identifier it reaches, in the
    order of [visits]; an exception ends the run, with the state
    reached so far. *)
Fixpoint traverse (cfg : Config) (ast : AST) (visits : list NodeRef)
  (st : RuleState) : RuleState * option JsError :=
  match visits with
  | [] => (st, None)
  | node :: rest =>
      match Identifier cfg ast node st with
      | Normal st' => traverse cfg ast rest st'
      | Throw e => (st, Some e)
      end
  end.

(** One run of the rule: [create], then the traversal. *)
Definition lint (options0 : option Options) (ast : AST)
  (visits : list NodeRef) : Completion (RuleState * option JsError) :=
  cfg <- create options0 ;;
  Normal (traverse cfg ast visits initialState).

End Rule.

(** [report] called once for each element of [nodes], in order. *)
Fixpoint reportAll (ast : AST) (nodes : list NodeRef) (st : RuleState)
  : RuleState :=
  match nodes with
  | [] => st
  | node :: rest => reportAll ast rest (report ast node st)
  end.

(** The records emitted so far are those of the nodes of [reported],
    which holds no node twice. *)
Definition reportedOnce (st : RuleState) : Prop :=
  map v_node (messages st) = reported st /\ NoDup (reported st).

(** How many violation records reference [node]. *)
Definition violationsOn (node : NodeRef) (st : RuleState) : nat :=
  List.length (filter (fun v => Nat.eqb (v_node v) node) (messages st)).

End Camelcase.

(* ------------------------------------------------------------------ *)
(** * Programs and configurations of the test-suite and of the examples *)

Module Examples.
Import JS ESTree Camelcase.
Local Open Scope nat_scope.

(** The default configuration, and the two property policies. *)
Definition cfgAlways : Config := mkConfig (Str "always") None None None.
Definition cfgNever : Config := mkConfig (Str "never") None None None.

(** [allowedPrefixes: ["opt_", "o_"]] *)
Definition cfgOptPrefixes : Config :=
  mkConfig (Str "always") (Some [AString "opt_"; AString "o_"]) None None.

(** [allowedPrefixes: [/.*/]] and [allowedSuffixes: [/.*/]] *)
Definition anything : RegExp := Regex.compile (Regex.Star Regex.Any).
Definition cfgAnyPrefix : Config :=
  mkConfig (Str "always") (Some [ARegExp anything]) None None.
Definition cfgAnySuffix : Config :=
  mkConfig (Str "always") None (Some [ARegExp anything]) None.

(** [allowedPrefixes: [/pfx\d+_/]] and [allowedSuffixes: [/_[kMG]?Hz/]],
    from the test-suite. *)
Definition pfxDigits : RegExp :=
  Regex.compile
    (Regex.Seq (Regex.Lit "pfx")
       (Regex.Seq (Regex.Plus Regex.digit) (Regex.Chr "_"))).
Definition hertz : RegExp :=
  Regex.compile
    (Regex.Seq (Regex.Chr "_")
       (Regex.Seq (Regex.Opt (Regex.OneOf (list_ascii_of_string "kMG")))
          (Regex.Lit "Hz"))).

(** The [RegExp] constructor on the patterns above, written without
    flags; this instance rejects every other pattern and every flag,
    which stands for a [SyntaxError] of the constructor. *)
Definition sampleRegExp (pattern flags : string) : Completion RegExp :=
  if negb (String.eqb flags "") then Throw SyntaxError
  else if String.eqb pattern ".*" then Normal anything
  else if String.eqb pattern "pfx\d+_" then Normal pfxDigits
  else if String.eqb pattern "_[kMG]?Hz" then Normal hertz
  else Throw SyntaxError.

(** [obj.foo_bar = 1]; the driver reaches [obj], then [foo_bar]. *)
Definition assignToMember : AST :=
  [ other "Program" None;                  (* 0 *)
    other "ExpressionStatement" (Some 0);  (* 1 *)
    assign 1 3 6;                          (* 2 *)
    member 2 4 5;                          (* 3: obj.foo_bar *)
    ident "obj" 3;                         (* 4 *)
    ident "foo_bar" 3;                     (* 5 *)
    other "Literal" (Some 2) ].        (* 6 *)
Definition assignToMemberVisits : list NodeRef := [4; 5].

(** [var { category_id } = query;]: the key and the value of the
    shorthand property are one node, which the driver reaches twice. *)
Definition shorthandPattern : AST :=
  [ other "Program" None;                  (* 0 *)
    other "VariableDeclaration" (Some 0);  (* 1 *)
    other "VariableDeclarator" (Some 1);   (* 2 *)
    other "ObjectPattern" (Some 2);    (* 3 *)
    prop 3 5 5;                            (* 4: { category_id } *)
    ident "category_id" 4;                 (* 5 *)
    ident "query" 2 ].                     (* 6 *)
Definition shorthandPatternVisits : list NodeRef := [5; 5; 6].

(** [var { category_id: category } = query;] *)
Definition renamingPattern : AST :=
  [ other "Program" None;                  (* 0 *)
    other "VariableDeclaration" (Some 0);  (* 1 *)
    other "VariableDeclarator" (Some 1);   (* 2 *)
    other "ObjectPattern" (Some 2);    (* 3 *)
    prop 3 5 6;                            (* 4: category_id: category *)
    ident "category_id" 4;                 (* 5 *)
    ident "category" 4;                    (* 6 *)
    ident "query" 2 ].                     (* 7 *)
Definition renamingPatternVisits : list NodeRef := [5; 6; 7].

(** [lhs = obj.b_c], with an identifier on the left. *)
Definition readOf (lhs obj : string) : AST :=
  [ other "Program" None;                  (* 0 *)
    other "ExpressionStatement" (Some 0);  (* 1 *)
    assign 1 3 4;                          (* 2 *)
    ident lhs 2;                           (* 3 *)
    member 2 5 6;                          (* 4: obj.b_c *)
    ident obj 4;                           (* 5 *)
    ident "b_c" 4 ].                       (* 6 *)
Definition readOfVisits : list NodeRef := [3; 5; 6].

(** [x = a.b_c] and [x = b_c.b_c] *)
Definition plainRead : AST := readOf "x" "a".
Definition plainReadOfNamesake : AST := readOf "x" "b_c".

(** [x.b_c = a.b_c] *)
Definition memberToMember : AST :=
  [ other "Program" None;                  (* 0 *)
    other "ExpressionStatement" (Some 0);  (* 1 *)
    assign 1 3 6;                          (* 2 *)
    member 2 4 5;                          (* 3: x.b_c *)
    ident "x" 3;                           (* 4 *)
    ident "b_c" 3;                         (* 5 *)
    member 2 7 8;                          (* 6: a.b_c *)
    ident "a" 6;                           (* 7 *)
    ident "b_c" 6 ].                       (* 8 *)
Definition memberToMemberVisits : list NodeRef := [4; 5; 7; 8].

(** [foo_bar = 1] *)
Definition assignToName : AST :=
  [ other "Program" None;                  (* 0 *)
    other "ExpressionStatement" (Some 0);  (* 1 *)
    assign 1 3 4;                          (* 2 *)
    ident "foo_bar" 2;                     (* 3 *)
    other "Literal" (Some 2) ].        (* 4 *)

(** [<nm> = 1] *)
Definition assignTo (nm : string) : AST :=
  [ other "Program" None;                  (* 0 *)
    other "ExpressionStatement" (Some 0);  (* 1 *)
    assign 1 3 4;                          (* 2 *)
    ident nm 2;                            (* 3 *)
    other "Literal" (Some 2) ].            (* 4 *)

(** [do_something(arg_one)] *)
Definition callWithArgument : AST :=
  [ other "Program" None;                  (* 0 *)
    other "ExpressionStatement" (Some 0);  (* 1 *)
    other "CallExpression" (Some 1);       (* 2 *)
    ident "do_something" 2;                (* 3 *)
    ident "arg_one" 2 ].                   (* 4 *)

(** [<obj>.<prp>()] *)
Definition methodCall (obj prp : string) : AST :=
  [ other "Program" None;                  (* 0 *)
    other "ExpressionStatement" (Some 0);  (* 1 *)
    other "CallExpression" (Some 1);       (* 2 *)
    member 2 4 5;                          (* 3 *)
    ident obj 3;                           (* 4 *)
    ident prp 3 ].                         (* 5 *)

(** [var foo = bar.baz_boom;] *)
Definition declareFromMember : AST :=
  [ other "Program" None;                  (* 0 *)
    other "VariableDeclaration" (Some 0);  (* 1 *)
    other "VariableDeclarator" (Some 1);   (* 2 *)
    ident "foo" 2;                         (* 3 *)
    member 2 5 6;                          (* 4: bar.baz_boom *)
    ident "bar" 4;                         (* 5 *)
    ident "baz_boom" 4 ].                  (* 6 *)

(** [var o = {bar_baz: 1}] *)
Definition objectLiteral : AST :=
  [ other "Program" None;                  (* 0 *)
    other "VariableDeclaration" (Some 0);  (* 1 *)
    other "VariableDeclarator" (Some 1);   (* 2 *)
    ident "o" 2;                           (* 3 *)
    other "ObjectExpression" (Some 2);     (* 4 *)
    prop 4 6 7;                            (* 5: bar_baz: 1 *)
    ident "bar_baz" 5;                     (* 6 *)
    other "Literal" (Some 5) ].            (* 7 *)


(** The handler and the driver with the ASCII [toUpperCase]. *)
Definition visit := Identifier asciiToUpperCase.
Definition walk := traverse asciiToUpperCase.

End Examples.

(* ------------------------------------------------------------------ *)
(** * Facts about the built-ins *)

Module JSFacts.
Import JS.

Lemma len_nonneg (s : string) : 0 <= len s.
Proof. unfold len; lia. Qed.

Lemma length_append (s t : string) :
  String.length (s ++ t) = (String.length s + String.length t)%nat.
Proof. induction s as [|c s IH]; simpl; [reflexivity | now rewrite IH]. Qed.

Lemma len_append (s t : string) : len (s ++ t) = len s + len t.
Proof. unfold len; rewrite length_append; lia. Qed.

Lemma to_nat_len (s : string) : Z.to_nat (len s) = String.length s.
Proof. unfold len; apply Nat2Z.id. Qed.

Lemma len_zero (s : string) : len s = 0 -> s = EmptyString.
Proof. destruct s; [reflexivity | unfold len; simpl; lia]. Qed.

Lemma append_empty_r (s : string) : s ++ EmptyString = s.
Proof. induction s as [|c s IH]; simpl; [reflexivity | now rewrite IH]. Qed.

Lemma append_assoc (s t u : string) : (s ++ t) ++ u = s ++ (t ++ u).
Proof. induction s as [|c s IH]; simpl; [reflexivity | now rewrite IH]. Qed.

Lemma take_drop (n : nat) (s : string) : take n s ++ drop n s = s.
Proof.
  revert s; induction n as [|n IH]; intros [|c s]; simpl; try reflexivity.
  now rewrite IH.
Qed.

Lemma take_append (s t : string) : take (String.length s) (s ++ t) = s.
Proof. induction s as [|c s IH]; simpl; [now destruct t | now rewrite IH]. Qed.

Lemma drop_append (s t : string) : drop (String.length s) (s ++ t) = t.
Proof. induction s as [|c s IH]; simpl; [reflexivity | exact IH]. Qed.

Lemma length_take (n : nat) (s : string) :
  String.length (take n s) = Nat.min n (String.length s).
Proof.
  revert s; induction n as [|n IH]; intros [|c s]; simpl; try reflexivity.
  now rewrite IH.
Qed.

Lemma length_drop (n : nat) (s : string) :
  String.length (drop n s) = (String.length s - n)%nat.
Proof.
  revert s; induction n as [|n IH]; intros [|c s]; simpl; try reflexivity.
  apply IH.
Qed.

Lemma take_all (n : nat) (s : string) :
  (String.length s <= n)%nat -> take n s = s.
Proof.
  revert s; induction n as [|n IH]; intros [|c s] H; simpl in *;
    try reflexivity; try lia.
  rewrite IH; [reflexivity | lia].
Qed.

Lemma drop_all (n : nat) (s : string) :
  (String.length s <= n)%nat -> drop n s = EmptyString.
Proof.
  revert s; induction n as [|n IH]; intros [|c s] H; simpl in *;
    try reflexivity; try lia.
  apply IH; lia.
Qed.

(** [value.substr(start)] with a start that is not negative drops
    [start] code units. *)
Lemma substr_from (s : string) (start : Z) :
  0 <= start -> substr s start None = drop (Z.to_nat start) s.
Proof.
  intros H. unfold substr.
  destruct (start <? 0) eqn:E; [apply Z.ltb_lt in E; lia|].
  pose proof (len_nonneg s) as Hs.
  destruct (len s - Z.min start (len s) <=? 0) eqn:E1.
  - apply Z.leb_le in E1. symmetry. apply drop_all. unfold len in *. lia.
  - apply Z.leb_gt in E1.
    assert (Hm : Z.min start (len s) = start) by lia. rewrite Hm.
    apply take_all. rewrite length_drop. unfold len. lia.
Qed.

(** [value.substr(0, n)] with a length that is not negative keeps the
    first [n] code units. *)
Lemma substr_upto (s : string) (n : Z) :
  0 <= n -> substr s 0 (Some n) = take (Z.to_nat n) s.
Proof.
  intros H. unfold substr.
  pose proof (len_nonneg s) as Hs.
  change (0 <? 0) with false. cbv iota.
  rewrite (Z.min_l 0 (len s)) by lia. rewrite Z.sub_0_r.
  change (Z.to_nat 0) with 0%nat. cbn [drop].
  destruct (Z.min (Z.max n 0) (len s) <=? 0) eqn:E1.
  - apply Z.leb_le in E1.
    assert (Hc : n = 0 \/ len s = 0) by lia.
    destruct Hc as [-> | Hc]; [reflexivity|].
    apply len_zero in Hc. subst s. now destruct (Z.to_nat n).
  - apply Z.leb_gt in E1.
    destruct (Z.le_gt_cases n (len s)) as [Hle | Hgt].
    + now replace (Z.min (Z.max n 0) (len s)) with n by lia.
    + replace (Z.min (Z.max n 0) (len s)) with (len s) by lia.
      unfold len in *. rewrite Nat2Z.id.
      rewrite !take_all; try reflexivity; lia.
Qed.

Lemma startsWith_underscore (s : string) :
  startsWith s "_" = true <-> exists t, s = String "_"%char t.
Proof.
  destruct s as [|c s]; cbn [startsWith].
  - split; [discriminate | intros [t Ht]; discriminate].
  - rewrite andb_true_r. split.
    + intros H. apply Ascii.eqb_eq in H. subst c. now exists s.
    + intros [t Ht]. injection Ht as -> _. apply Ascii.eqb_refl.
Qed.

Lemma indexOfFrom_range (s pat : string) (pos : Z) :
  indexOfFrom s pat pos = -1 \/ pos <= indexOfFrom s pat pos.
Proof.
  revert pos; induction s as [|c s IH]; intros pos; simpl.
  - destruct (startsWith "" pat); [right; lia | now left].
  - destruct (startsWith (String c s) pat); [right; lia|].
    destruct (IH (pos + 1)) as [H | H]; [now left | right; lia].
Qed.

(** [name.indexOf("_") > -1] says that [name] holds an underscore. *)
Lemma indexOfFrom_underscore (s : string) (pos : Z) :
  0 <= pos ->
  (-1 < indexOfFrom s "_" pos <->
   exists pre post, s = pre ++ String "_"%char post).
Proof.
  revert pos; induction s as [|c s IH]; intros pos Hpos.
  - simpl. split; [lia|].
    intros (pre & post & H). destruct pre; discriminate.
  - cbn [indexOfFrom].
    destruct (startsWith (String c s) "_") eqn:E.
    + apply startsWith_underscore in E as [t Ht]. split; [|lia].
      intros _. exists EmptyString, t. exact Ht.
    + rewrite (IH (pos + 1)) by lia. split.
      * intros (pre & post & H). exists (String c pre), post.
        simpl. now rewrite H.
      * intros (pre & post & H). destruct pre as [|d pre].
        -- simpl in H. exfalso.
           assert (Ht : startsWith (String c s) "_" = true)
             by (apply startsWith_underscore; now exists post).
           congruence.
        -- simpl in H. injection H as _ H. now exists pre, post.
Qed.

Lemma arrayIndexOfFrom_range (l : list nat) (x : nat) (pos : Z) :
  arrayIndexOfFrom l x pos = -1 \/ pos <= arrayIndexOfFrom l x pos.
Proof.
  revert pos; induction l as [|y l IH]; intros pos; simpl; [now left|].
  destruct (Nat.eqb y x); [right; lia|].
  destruct (IH (pos + 1)) as [H | H]; [now left | right; lia].
Qed.

Lemma arrayIndexOfFrom_absent (l : list nat) (x : nat) (pos : Z) :
  0 <= pos -> (arrayIndexOfFrom l x pos < 0 <-> ~ In x l).
Proof.
  revert pos; induction l as [|y l IH]; intros pos Hpos; simpl.
  - split; [tauto | lia].
  - destruct (Nat.eqb y x) eqn:E.
    + apply Nat.eqb_eq in E. split; [lia | tauto].
    + apply Nat.eqb_neq in E. rewrite (IH (pos + 1)) by lia. tauto.
Qed.

Lemma arrayIndexOf_absent (l : list nat) (x : nat) :
  (arrayIndexOf l x <? 0) = true <-> ~ In x l.
Proof.
  unfold arrayIndexOf. rewrite Z.ltb_lt.
  apply arrayIndexOfFrom_absent. lia.
Qed.

End JSFacts.

(* ------------------------------------------------------------------ *)
(** * The affix matchers *)

Module AffixFacts.
Import JS ESTree Camelcase JSFacts.

Lemma nonempty_len (s : string) : s <> EmptyString -> 0 < len s.
Proof. destruct s; [congruence | unfold len; simpl; lia]. Qed.

(** A literal prefix followed by a remainder that is not empty is
    found, at the offset that follows it. *)
Lemma startAfterStringPrefix_found (s rest : string) :
  rest <> EmptyString -> startAfterStringPrefix (s ++ rest) s = len s.
Proof.
  intros Hrest. unfold startAfterStringPrefix.
  pose proof (nonempty_len rest Hrest) as Hl.
  rewrite len_append.
  destruct (len s >=? len s + len rest) eqn:E;
    [apply Z.geb_le in E; lia|].
  rewrite substr_upto by apply len_nonneg.
  rewrite to_nat_len, take_append, String.eqb_refl.
  reflexivity.
Qed.

Lemma startAfterStringPrefix_inv (value s : string) :
  0 <= startAfterStringPrefix value s ->
  startAfterStringPrefix value s = len s /\
  exists rest, rest <> EmptyString /\ value = s ++ rest.
Proof.
  unfold startAfterStringPrefix.
  destruct (len s >=? len value) eqn:E; [lia|].
  rewrite substr_upto by apply len_nonneg.
  rewrite to_nat_len.
  destruct (String.eqb (take (String.length s) value) s) eqn:E1;
    simpl; [|lia].
  intros _. split; [reflexivity|].
  apply String.eqb_eq in E1.
  exists (drop (String.length s) value). split.
  - intros Hd. apply (f_equal String.length) in Hd.
    rewrite length_drop in Hd. simpl in Hd.
    rewrite Z.geb_leb in E. apply Z.leb_gt in E. unfold len in E. lia.
  - rewrite <- E1 at 1. symmetry. apply take_drop.
Qed.

Lemma startAfterStringPrefix_values (value s : string) :
  startAfterStringPrefix value s = -1 \/
  startAfterStringPrefix value s = len s.
Proof.
  unfold startAfterStringPrefix.
  destruct (len s >=? len value); [now left|].
  destruct (negb _); [now left | now right].
Qed.

(** A literal suffix preceded by a front part that is not empty is
    found, at the offset where it begins. *)
Lemma endBeforeStringSuffix_found (front s : string) :
  front <> EmptyString -> endBeforeStringSuffix (front ++ s) s = len front.
Proof.
  intros Hfront. unfold endBeforeStringSuffix.
  pose proof (nonempty_len front Hfront) as Hl.
  rewrite len_append.
  replace (len front + len s - len s) with (len front) by lia.
  destruct (len front <=? 0) eqn:E; [apply Z.leb_le in E; lia|].
  rewrite substr_from by lia.
  rewrite to_nat_len, drop_append, String.eqb_refl.
  reflexivity.
Qed.

Lemma endBeforeStringSuffix_inv (value s : string) :
  0 <= endBeforeStringSuffix value s ->
  endBeforeStringSuffix value s = len value - len s /\
  exists front,
    front <> EmptyString /\ value = front ++ s /\
    len front = len value - len s.
Proof.
  unfold endBeforeStringSuffix.
  destruct (len value - len s <=? 0) eqn:E; [lia|].
  apply Z.leb_gt in E.
  rewrite substr_from by lia.
  destruct (String.eqb (drop (Z.to_nat (len value - len s)) value) s)
    eqn:E1; simpl; [|lia].
  intros _. split; [reflexivity|].
  apply String.eqb_eq in E1.
  pose proof (len_nonneg s) as Hs.
  assert (Hlen : len (take (Z.to_nat (len value - len s)) value)
                 = len value - len s).
  { unfold len at 1. rewrite length_take. unfold len in *. lia. }
  exists (take (Z.to_nat (len value - len s)) value). repeat split.
  - intros Hd. rewrite Hd in Hlen. unfold len at 1 in Hlen.
    simpl in Hlen. lia.
  - rewrite <- (take_drop (Z.to_nat (len value - len s)) value) at 1.
    now rewrite E1.
  - exact Hlen.
Qed.

Lemma endBeforeStringSuffix_values (value s : string) :
  endBeforeStringSuffix value s = -1 \/
  endBeforeStringSuffix value s = len value - len s.
Proof.
  unfold endBeforeStringSuffix.
  destruct (len value - len s <=? 0); [now left|].
  destruct (negb _); [now left | now right].
Qed.

(** A literal as long as the value is no prefix and no suffix for the
    rule, even when it is the value itself. *)
Lemma startAfterStringPrefix_whole (v : string) :
  startAfterStringPrefix v v = -1.
Proof.
  unfold startAfterStringPrefix.
  destruct (len v >=? len v) eqn:E; [reflexivity|].
  rewrite Z.geb_leb in E. apply Z.leb_gt in E. lia.
Qed.

Lemma endBeforeStringSuffix_whole (v : string) :
  endBeforeStringSuffix v v = -1.
Proof.
  unfold endBeforeStringSuffix.
  destruct (len v - len v <=? 0) eqn:E; [reflexivity|].
  apply Z.leb_gt in E. lia.
Qed.

Lemma literal_whole_name (v : string) :
  removePrefix v [AString v] = v /\ removeSuffix v [AString v] = v.
Proof.
  simpl. now rewrite startAfterStringPrefix_whole, endBeforeStringSuffix_whole.
Qed.

(** The loop of [removePrefix] skips the matchers that do not strip. *)
Lemma removePrefix_skip (value : string) (before rest : list Allowed) :
  (forall m, In m before -> startAfter value m < 0) ->
  removePrefix value (before ++ rest) = removePrefix value rest.
Proof.
  induction before as [|m before IH]; intros H; [reflexivity|].
  simpl. destruct (startAfter value m >=? 0) eqn:E.
  - apply Z.geb_le in E. specialize (H m (or_introl eq_refl)). lia.
  - apply IH. intros m' Hm'. apply H. now right.
Qed.

Lemma removeSuffix_skip (value : string) (before rest : list Allowed) :
  (forall m, In m before -> endBefore value m < 0) ->
  removeSuffix value (before ++ rest) = removeSuffix value rest.
Proof.
  induction before as [|m before IH]; intros H; [reflexivity|].
  simpl. destruct (endBefore value m >=? 0) eqn:E.
  - apply Z.geb_le in E. specialize (H m (or_introl eq_refl)). lia.
  - apply IH. intros m' Hm'. apply H. now right.
Qed.

(** ** The underscore trim *)

Lemma dropLeadingUnderscores_head (s : string) :
  noLeadingUnderscore (dropLeadingUnderscores s).
Proof.
  induction s as [|c s IH]; simpl; [exact I|].
  destruct (isUnderscore c) eqn:E; [exact IH | exact E].
Qed.

Lemma dropLeadingUnderscores_fixed (s : string) :
  noLeadingUnderscore s -> dropLeadingUnderscores s = s.
Proof. destruct s as [|c s]; simpl; [reflexivity | now intros ->]. Qed.

Lemma dropTrailingUnderscores_head (s : string) :
  noLeadingUnderscore s -> noLeadingUnderscore (dropTrailingUnderscores s).
Proof.
  destruct s as [|c s]; simpl; [exact id|]. intros H.
  destruct (dropTrailingUnderscores s); [rewrite H|]; exact H.
Qed.

Lemma dropTrailingUnderscores_idem (s : string) :
  dropTrailingUnderscores (dropTrailingUnderscores s)
  = dropTrailingUnderscores s.
Proof.
  induction s as [|c s IH]; [reflexivity|].
  cbn [dropTrailingUnderscores].
  destruct (dropTrailingUnderscores s) as [|d u] eqn:E.
  - destruct (isUnderscore c) eqn:Ec; [reflexivity|].
    cbn [dropTrailingUnderscores]. now rewrite Ec.
  - cbn [dropTrailingUnderscores]. cbn [dropTrailingUnderscores] in IH.
    destruct (dropTrailingUnderscores u) as [|e v] eqn:Eu.
    + destruct (isUnderscore d); [discriminate | congruence].
    + congruence.
Qed.

Lemma replaceEdgeUnderscores_idem (s : string) :
  replaceEdgeUnderscores (replaceEdgeUnderscores s)
  = replaceEdgeUnderscores s.
Proof.
  unfold replaceEdgeUnderscores.
  rewrite (dropLeadingUnderscores_fixed (dropTrailingUnderscores _)).
  - apply dropTrailingUnderscores_idem.
  - apply dropTrailingUnderscores_head, dropLeadingUnderscores_head.
Qed.

End AffixFacts.

(* ------------------------------------------------------------------ *)
(** * The violation sink and the handler *)

Module HandlerFacts.
Import JS ESTree Camelcase JSFacts.

Lemma reportedOnce_initial : reportedOnce initialState.
Proof. split; [reflexivity | constructor]. Qed.

(** [report] on a node already in [reported] does nothing; on a new
    node it adds the node and one record. *)
Lemma report_known (ast : AST) (node : NodeRef) (st : RuleState) :
  In node (reported st) -> report ast node st = st.
Proof.
  intros H. unfold report.
  destruct (arrayIndexOf (reported st) node <? 0) eqn:E; [|reflexivity].
  apply arrayIndexOf_absent in E. contradiction.
Qed.

Lemma report_new (ast : AST) (node : NodeRef) (st : RuleState) :
  ~ In node (reported st) ->
  report ast node st
  = mkState (reported st ++ [node])
      (messages st ++ [mkViolation node template (nameOf ast node)]).
Proof.
  intros H. unfold report.
  apply arrayIndexOf_absent in H. now rewrite H.
Qed.

Lemma report_reportedOnce (ast : AST) (node : NodeRef) (st : RuleState) :
  reportedOnce st -> reportedOnce (report ast node st).
Proof.
  intros [Hm Hn].
  destruct (in_dec Nat.eq_dec node (reported st)) as [Hin | Hout].
  - rewrite report_known by assumption. now split.
  - rewrite report_new by assumption. split; simpl.
    + now rewrite map_app, Hm.
    + apply NoDup_app; repeat split; try assumption.
      * constructor; [simpl; tauto | constructor].
      * intros x Hx [<- | []]. contradiction.
Qed.

Lemma reportAll_reportedOnce (ast : AST) (nodes : list NodeRef)
  (st : RuleState) :
  reportedOnce st -> reportedOnce (reportAll ast nodes st).
Proof.
  revert st; induction nodes as [|node nodes IH]; intros st H; simpl.
  - exact H.
  - apply IH, report_reportedOnce, H.
Qed.

Lemma count_NoDup (l : list Violation) (node : NodeRef) :
  NoDup (map v_node l) ->
  (List.length (filter (fun v => Nat.eqb (v_node v) node) l) <= 1)%nat.
Proof.
  induction l as [|v l IH]; intros H; simpl; [lia|].
  inversion H as [|x xs Hnot Hrest]; subst.
  destruct (Nat.eqb (v_node v) node) eqn:E; [|now apply IH].
  apply Nat.eqb_eq in E. simpl.
  assert (Hnone : filter (fun v => Nat.eqb (v_node v) node) l = []).
  { destruct (filter _ l) as [|w ws] eqn:Ef; [reflexivity|].
    exfalso. apply Hnot.
    assert (Hw : In w (filter (fun v => Nat.eqb (v_node v) node) l))
      by (rewrite Ef; now left).
    apply filter_In in Hw as [Hw1 Hw2]. apply Nat.eqb_eq in Hw2.
    rewrite E, <- Hw2. now apply in_map. }
  rewrite Hnone. simpl. lia.
Qed.

Lemma reportedOnce_violationsOn (st : RuleState) (node : NodeRef) :
  reportedOnce st -> (violationsOn node st <= 1)%nat.
Proof.
  intros [Hm Hn]. apply count_NoDup. now rewrite Hm.
Qed.

Section Handler.
Variable toUpperCase : string -> string.
Variable cfg : Config.
Variable ast : AST.

(** Case analysis along the path the handler takes: the next test it
    evaluates is split, and a branch whose test cannot hold is closed. *)
Ltac scrutinee t :=
  lazymatch t with
  | bind ?c _ => scrutinee c
  | (if ?b then _ else _) => scrutinee b
  | match ?x with _ => _ end => scrutinee x
  | _ => t
  end.

Ltac follow H :=
  repeat (cbn [bind] in H;
          lazymatch type of H with
          | Normal _ = Normal _ => fail
          | Throw _ = Normal _ => fail
          | @eq (Completion _) ?lhs _ =>
              let t := scrutinee lhs in
              destruct t eqn:?;
              try solve [rewrite ?andb_false_r in *; discriminate]
          end);
  cbn [bind] in H.

(** A call of the handler that returns has reported the node, or has
    left the state as it was; it reports only a node whose checkable
    name is underscored and is no exception. *)
Lemma Identifier_outcome (node : NodeRef) (st st' : RuleState) :
  Identifier toUpperCase cfg ast node st = Normal st' ->
  st' = st \/
  (st' = report ast node st /\
   exists n rawName,
     nth_error ast node = Some n /\ name n = Some rawName /\
     isUnderscored toUpperCase (checkableName cfg rawName) = true /\
     isException cfg (checkableName cfg rawName) = false).
Proof.
  unfold Identifier, deref. intros H.
  destruct (nth_error ast node) as [n|] eqn:En; cbn [bind] in H;
    [|discriminate].
  destruct (name n) as [rawName|] eqn:Er; cbn [bind] in H; [|discriminate].
  destruct (parent n) as [p|] eqn:Ep; cbn [bind] in H; [|discriminate].
  destruct (nth_error ast p) as [pn|] eqn:Epn; cbn [bind] in H;
    [|discriminate].
  destruct (isException cfg (checkableName cfg rawName)) eqn:Ex;
    [injection H as <-; now left|].
  destruct (isUnderscored toUpperCase (checkableName cfg rawName)) eqn:Eu;
    follow H; try discriminate; injection H as <-;
    try match goal with
        | |- context [if ?b then _ else _] => destruct b
        end;
    try (now left);
    try (right; split; [reflexivity | now exists n, rawName]).
Qed.

Lemma Identifier_reportedOnce (node : NodeRef) (st st' : RuleState) :
  Identifier toUpperCase cfg ast node st = Normal st' ->
  reportedOnce st -> reportedOnce st'.
Proof.
  intros H Hinv. apply Identifier_outcome in H as [-> | [-> _]].
  - exact Hinv.
  - now apply report_reportedOnce.
Qed.

Lemma traverse_reportedOnce (visits : list NodeRef) (st : RuleState) :
  reportedOnce st ->
  reportedOnce (fst (traverse toUpperCase cfg ast visits st)).
Proof.
  revert st; induction visits as [|node visits IH]; intros st H; simpl.
  - exact H.
  - destruct (Identifier toUpperCase cfg ast node st) as [st'|e] eqn:E.
    + apply IH. eapply Identifier_reportedOnce; eassumption.
    + exact H.
Qed.

(** The facts about a node of the tree that the lemmas below take as
    hypotheses are rewritten into the handler, which then computes. *)
Ltac known :=
  repeat match goal with
    | H : ?x = _ |- context [?x] => rewrite H
    end.

Ltac compute_handler :=
  unfold Identifier, deref;
  repeat (known; cbn [bind sameNode sameName andb negb orb
                        strictEqualsString String.eqb Ascii.eqb Bool.eqb]);
  rewrite ?Nat.eqb_refl, ?String.eqb_refl;
  cbn [bind andb negb];
  try reflexivity.

Section Node.
Variables (node : NodeRef) (n : ASTNode) (rawName : string).
Variables (p : NodeRef) (pn : ASTNode).
Hypothesis Hnode : nth_error ast node = Some n.
Hypothesis Hname : name n = Some rawName.
Hypothesis Hparent : parent n = Some p.
Hypothesis Hpn : nth_error ast p = Some pn.

(** Policy "never": nothing below a member access or a property is
    checked. *)
Lemma Identifier_never (st : RuleState) :
  properties cfg = Str "never" ->
  type pn = "MemberExpression" \/ type pn = "Property" ->
  Identifier toUpperCase cfg ast node st = Normal st.
Proof.
  intros Hnever [Hty | Hty];
    destruct (isException cfg (checkableName cfg rawName)) eqn:Ex;
    compute_handler.
Qed.

(** The key of a property of an object pattern, when the value is
    another node, is skipped under every policy. *)
Lemma Identifier_pattern_key (pp : NodeRef) (ppn : ASTNode)
  (st : RuleState) :
  type pn = "Property" ->
  parent pn = Some pp -> nth_error ast pp = Some ppn ->
  type ppn = "ObjectPattern" ->
  key pn = Some node -> value pn <> Some node ->
  Identifier toUpperCase cfg ast node st = Normal st.
Proof.
  intros Hty Hpp Hppn Hpat Hkey Hvalue.
  assert (Hv : sameNode (value pn) (Some node) = false).
  { destruct (value pn) as [v|]; simpl; [|reflexivity].
    apply Nat.eqb_neq. congruence. }
  destruct (isException cfg (checkableName cfg rawName)) eqn:Ex;
    destruct (strictEqualsString (properties cfg) "never") eqn:Ep;
    compute_handler.
Qed.

(** A property whose value is the node itself (the shorthand) is
    checked like any other property, when the policy is not "never". *)
Lemma Identifier_shorthand (pp : NodeRef) (ppn : ASTNode)
  (st : RuleState) :
  type pn = "Property" ->
  parent pn = Some pp -> nth_error ast pp = Some ppn ->
  value pn = Some node ->
  strictEqualsString (properties cfg) "never" = false ->
  isException cfg (checkableName cfg rawName) = false ->
  Identifier toUpperCase cfg ast node st
  = Normal (if isUnderscored toUpperCase (checkableName cfg rawName)
            then report ast node st else st).
Proof.
  intros Hty Hpp Hppn Hvalue Hpol Hex.
  destruct (isUnderscored toUpperCase (checkableName cfg rawName)) eqn:Eu;
    compute_handler;
    rewrite ?andb_false_r; cbn [bind]; try reflexivity.
Qed.


(** An identifier whose parent is neither a member access nor a
    property: the policy is not read. *)
Lemma Identifier_bare (st : RuleState) :
  String.eqb (type pn) "MemberExpression" = false ->
  String.eqb (type pn) "Property" = false ->
  Identifier toUpperCase cfg ast node st
  = Normal (if negb (isException cfg (checkableName cfg rawName))
               && isUnderscored toUpperCase (checkableName cfg rawName)
               && negb (String.eqb (type pn) "CallExpression")
            then report ast node st else st).
Proof.
  intros Hm Hp.
  destruct (isException cfg (checkableName cfg rawName)) eqn:Ex;
    destruct (isUnderscored toUpperCase (checkableName cfg rawName)) eqn:Eu;
    compute_handler.
Qed.

(** A key or a value of a property of anything but an object pattern
    is checked, and the test on "CallExpression" cannot fail there. *)
Lemma Identifier_property (pp : NodeRef) (ppn : ASTNode)
  (st : RuleState) :
  type pn = "Property" ->
  parent pn = Some pp -> nth_error ast pp = Some ppn ->
  String.eqb (type ppn) "ObjectPattern" = false ->
  strictEqualsString (properties cfg) "never" = false ->
  isException cfg (checkableName cfg rawName) = false ->
  Identifier toUpperCase cfg ast node st
  = Normal (if isUnderscored toUpperCase (checkableName cfg rawName)
            then report ast node st else st).
Proof.
  intros Hty Hpp Hppn Hpat Hpol Hex.
  destruct (isUnderscored toUpperCase (checkableName cfg rawName)) eqn:Eu;
    compute_handler.
Qed.

(** The object of a member access, when it is an identifier, is
    reported whenever its checkable name is underscored, whatever
    holds the member access. *)
Lemma Identifier_member_object (a : NodeRef) (an : ASTNode)
  (st : RuleState) :
  type n = "Identifier" ->
  type pn = "MemberExpression" ->
  object pn = Some node ->
  parent pn = Some a -> nth_error ast a = Some an ->
  strictEqualsString (properties cfg) "never" = false ->
  isException cfg (checkableName cfg rawName) = false ->
  Identifier toUpperCase cfg ast node st
  = Normal (if isUnderscored toUpperCase (checkableName cfg rawName)
            then report ast node st else st).
Proof.
  intros Hid Hty Hobj Ha Han Hpol Hex.
  destruct (isUnderscored toUpperCase (checkableName cfg rawName)) eqn:Eu;
    compute_handler;
    rewrite ?andb_false_r; cbn [bind]; try reflexivity.
Qed.

(** A member access that no assignment holds directly: its property
    is not reported, unless the object is an identifier spelled as
    the node. *)
Lemma Identifier_member_elsewhere (a : NodeRef) (an : ASTNode)
  (o : NodeRef) (on : ASTNode) (st : RuleState) :
  type pn = "MemberExpression" ->
  object pn = Some o -> nth_error ast o = Some on ->
  parent pn = Some a -> nth_error ast a = Some an ->
  String.eqb (type on) "Identifier" && sameName (name on) (Some rawName)
  = false ->
  String.eqb (type an) "AssignmentExpression" = false ->
  Identifier toUpperCase cfg ast node st = Normal st.
Proof.
  intros Hty Hobj Hon Ha Han Hsame Hassign.
  destruct (isException cfg (checkableName cfg rawName)) eqn:Ex;
    destruct (strictEqualsString (properties cfg) "never") eqn:Ep;
    compute_handler.
Qed.

Section Member.
Variables (a : NodeRef) (an : ASTNode) (o : NodeRef) (on : ASTNode).
Hypothesis Hmember : type pn = "MemberExpression".
Hypothesis Hobject : object pn = Some o.
Hypothesis Hon : nth_error ast o = Some on.
Hypothesis Hassign : parent pn = Some a.
Hypothesis Han : nth_error ast a = Some an.
Hypothesis Hantype : type an = "AssignmentExpression".
Hypothesis Hpolicy : strictEqualsString (properties cfg) "never" = false.
Hypothesis Hexception : isException cfg (checkableName cfg rawName) = false.

(** The property of the member access that an assignment assigns to
    is reported when its checkable name is underscored. *)
Lemma Identifier_assignment_target (r : NodeRef) (rn : ASTNode)
  (st : RuleState) :
  property pn = Some node ->
  left an = Some p ->
  right an = Some r -> nth_error ast r = Some rn ->
  isUnderscored toUpperCase (checkableName cfg rawName) = true ->
  Identifier toUpperCase cfg ast node st = Normal (report ast node st).
Proof.
  intros Hprop Hleft Hright Hrn Hu.
  destruct (String.eqb (type on) "Identifier"
            && sameName (name on) (Some rawName)) eqn:Eo;
    destruct (String.eqb (type rn) "MemberExpression") eqn:Er;
    compute_handler.
Qed.

(** The member access is the right-hand side and its object is not an
    identifier spelled as the node: the node is reported only when
    the left-hand side is a member access whose property bears the
    same name. *)
Lemma Identifier_read_left_plain (l : NodeRef) (ln : ASTNode)
  (st : RuleState) :
  right an = Some p ->
  left an = Some l -> nth_error ast l = Some ln ->
  String.eqb (type on) "Identifier" && sameName (name on) (Some rawName)
  = false ->
  String.eqb (type ln) "MemberExpression" = false ->
  Identifier toUpperCase cfg ast node st = Normal st.
Proof.
  intros Hright Hleft Hln Hobj Hlty.
  destruct (isUnderscored toUpperCase (checkableName cfg rawName)) eqn:Eu;
    compute_handler;
    rewrite ?andb_false_r; cbn [bind]; try reflexivity.
Qed.

Lemma Identifier_read_left_member (l : NodeRef) (ln : ASTNode)
  (lp : NodeRef) (lpn : ASTNode) (st : RuleState) :
  right an = Some p ->
  left an = Some l -> nth_error ast l = Some ln ->
  String.eqb (type on) "Identifier" && sameName (name on) (Some rawName)
  = false ->
  type ln = "MemberExpression" ->
  property ln = Some lp -> nth_error ast lp = Some lpn ->
  isUnderscored toUpperCase (checkableName cfg rawName) = true ->
  Identifier toUpperCase cfg ast node st
  = Normal (if sameName (name lpn) (Some rawName)
            then report ast node st else st).
Proof.
  intros Hright Hleft Hln Hobj Hlty Hlp Hlpn Hu.
  compute_handler.
Qed.

End Member.
End Node.

(** A node whose checkable name is not underscored is not reported. *)
Lemma Identifier_not_underscored (node : NodeRef) (n : ASTNode)
  (rawName : string) (st : RuleState) :
  nth_error ast node = Some n -> name n = Some rawName ->
  isUnderscored toUpperCase (checkableName cfg rawName) = false ->
  Identifier toUpperCase cfg ast node st = Normal st \/
  exists e, Identifier toUpperCase cfg ast node st = Throw e.
Proof.
  intros Hn Hname Hu.
  destruct (Identifier toUpperCase cfg ast node st) as [st'|e] eqn:E;
    [|right; now exists e].
  left. apply Identifier_outcome in E as [-> | [_ (n' & r' & H1 & H2 & H3 & _)]];
    [reflexivity|].
  congruence.
Qed.

(** ** The verdict does not depend on the state *)

Ltac follow_any H :=
  repeat (cbn [bind] in H |- *;
          lazymatch type of H with
          | Normal _ = _ => fail
          | Throw _ = _ => fail
          | @eq (Completion _) ?lhs _ =>
              let t := scrutinee lhs in
              destruct t eqn:?;
              try solve [rewrite ?andb_false_r in *; discriminate]
          end);
  cbn [bind] in H |- *.


Lemma Identifier_same_throw (node : NodeRef) (st1 st2 : RuleState)
  (e : JsError) :
  Identifier toUpperCase cfg ast node st1 = Throw e ->
  Identifier toUpperCase cfg ast node st2 = Throw e.
Proof.
  unfold Identifier, deref. intros H.
  follow_any H; try discriminate; try assumption.
Qed.

(** ** What a traversal keeps *)


Lemma Identifier_grows (node : NodeRef) (st st' : RuleState) :
  Identifier toUpperCase cfg ast node st = Normal st' ->
  (exists r, reported st' = reported st ++ r /\ incl r [node])%list
  /\ (exists m, messages st' = messages st ++ m
                /\ incl (map v_node m) [node])%list.
Proof.
  intros H. apply Identifier_outcome in H as [-> | [-> _]].
  - split; exists []; now rewrite app_nil_r.
  - destruct (in_dec Nat.eq_dec node (reported st)) as [Hin | Hout].
    + rewrite report_known by assumption.
      split; exists []; now rewrite app_nil_r.
    + rewrite report_new by assumption. simpl. split.
      * exists [node]. split; [reflexivity | apply incl_refl].
      * eexists. split; [reflexivity | apply incl_refl].
Qed.

Lemma traverse_grows (visits : list NodeRef) (st : RuleState) :
  (exists r,
      reported (fst (traverse toUpperCase cfg ast visits st))
      = reported st ++ r /\ incl r visits)%list
  /\ (exists m,
         messages (fst (traverse toUpperCase cfg ast visits st))
         = messages st ++ m /\ incl (map v_node m) visits)%list.
Proof.
  revert st; induction visits as [|node visits IH]; intros st; simpl.
  - split; exists []; (split; [now rewrite app_nil_r | apply incl_refl]).
  - destruct (Identifier toUpperCase cfg ast node st) as [st'|e] eqn:E.
    + apply Identifier_grows in E as [(r1 & Hr1 & Hi1) (m1 & Hm1 & Hj1)].
      destruct (IH st') as [(r2 & Hr2 & Hi2) (m2 & Hm2 & Hj2)].
      split.
      * exists (r1 ++ r2)%list. split.
        -- now rewrite Hr2, Hr1, app_assoc.
        -- apply incl_app.
           ++ intros x Hx. apply Hi1 in Hx. destruct Hx as [<- | []].
              now left.
           ++ now apply incl_tl.
      * exists (m1 ++ m2)%list. split.
        -- now rewrite Hm2, Hm1, app_assoc.
        -- rewrite map_app. apply incl_app.
           ++ intros x Hx. apply Hj1 in Hx. destruct Hx as [<- | []].
              now left.
           ++ now apply incl_tl.
    + simpl. split; exists [];
        (split; [now rewrite app_nil_r | intros x []]).
Qed.





(** ** No exception on a well-formed tree *)

Lemma wellFormed_node (i : NodeRef) (x : ASTNode) :
  wellFormed ast = true -> nth_error ast i = Some x ->
  wellFormedNode ast x = true.
Proof.
  intros Hwf Hx. unfold wellFormed in Hwf.
  rewrite forallb_forall in Hwf. apply Hwf.
  eapply nth_error_In, Hx.
Qed.

Ltac split_andb :=
  repeat match goal with
    | H : andb _ _ = true |- _ =>
        apply andb_true_iff in H; destruct H
    end.

Ltac wf_facts Hwf :=
  repeat match goal with
    | H : nth_error ast ?i = Some ?x |- _ =>
        lazymatch goal with
        | _ : wellFormedNode ast x = true |- _ => fail
        | _ => pose proof (wellFormed_node i x Hwf H)
        end
    end;
  repeat match goal with
    | H : wellFormedNode ast _ = true |- _ =>
        unfold wellFormedNode in H; cbn [forallb] in H
    end;
  split_andb.

Ltac use_fact H :=
  repeat match goal with
    | H' : context [?l] |- _ =>
        lazymatch type of H with
        | l = _ =>
            lazymatch H' with
            | H => fail
            | _ => rewrite H in H'
            end
        end
    end.

Ltac use_facts :=
  repeat match goal with
    | H : nth_error ast _ = _ |- _ => progress use_fact H
    | H : ?f ?x = _ |- _ => is_var x; progress use_fact H
    | H : String.eqb _ _ = _ |- _ => progress use_fact H
    | _ => progress (cbn [resolves present andb] in *)
    | _ => progress split_andb
    end;
  try discriminate.

Lemma Identifier_returns (node : NodeRef) (n : ASTNode) (st : RuleState) :
  wellFormed ast = true ->
  nth_error ast node = Some n -> type n = "Identifier" ->
  exists st', Identifier toUpperCase cfg ast node st = Normal st'.
Proof.
  intros Hwf Hn Hty.
  destruct (Identifier toUpperCase cfg ast node st) as [st'|e] eqn:H;
    [now exists st'|].
  exfalso. unfold Identifier, deref in H. rewrite Hn in H.
  pose proof (wellFormed_node node n Hwf Hn) as Hnode.
  unfold wellFormedNode in Hnode. rewrite Hty in Hnode.
  cbn [String.eqb Ascii.eqb Bool.eqb forallb andb] in Hnode.
  follow_any H; try discriminate; wf_facts Hwf; use_facts.
Qed.

Lemma traverse_returns (visits : list NodeRef) (st : RuleState) :
  wellFormed ast = true ->
  (forall node, In node visits ->
                exists n, nth_error ast node = Some n
                          /\ type n = "Identifier") ->
  snd (traverse toUpperCase cfg ast visits st) = None.
Proof.
  intros Hwf. revert st.
  induction visits as [|node visits IH]; intros st H; simpl; [reflexivity|].
  destruct (H node (or_introl eq_refl)) as (n & Hn & Hty).
  destruct (Identifier_returns node n st Hwf Hn Hty) as (st' & ->).
  apply IH. intros x Hx. apply H. now right.
Qed.

End Handler.

End HandlerFacts.

(* ------------------------------------------------------------------ *)
(** * The option processing of [create] *)

Module CreateFacts.
Import JS ESTree Camelcase.

(** What [create] leaves in [properties] when the option is neither
    "always" nor "never". *)
Lemma normalized_policy (p : Value) :
  p <> Str "always" -> p <> Str "never" ->
  (if negb (strictEqualsString (orEmptyString p) "always")
      && negb (strictEqualsString (orEmptyString p) "never")
   then Str "always" else orEmptyString p) = Str "always".
Proof.
  intros Ha Hn.
  destruct p as [| |[|]|[|z|z]|[|c s]]; try reflexivity.
  cbn [orEmptyString strictEqualsString].
  destruct (String.eqb (String c s) "always") eqn:E1.
  - apply String.eqb_eq in E1. congruence.
  - destruct (String.eqb (String c s) "never") eqn:E2; [|reflexivity].
    apply String.eqb_eq in E2. congruence.
Qed.

Lemma create_invalid_policy (newRegExp : string -> string -> Completion RegExp)
  (p : Value) (pre suf exc : option (list StringOrRegExp)) :
  p <> Str "always" -> p <> Str "never" ->
  create newRegExp (Some (mkOptions p pre suf exc))
  = create newRegExp (Some (mkOptions (Str "always") pre suf exc)).
Proof.
  intros Ha Hn. unfold create. cbn [o_properties o_allowedPrefixes
    o_allowedSuffixes o_exceptions].
  destruct (processArrayOfStringOrRegExp newRegExp pre); [|reflexivity].
  destruct (processArrayOfStringOrRegExp newRegExp suf); [|reflexivity].
  destruct (processArrayOfStringOrRegExp newRegExp exc); [|reflexivity].
  cbn [bind]. now rewrite normalized_policy.
Qed.

End CreateFacts.

(* ------------------------------------------------------------------ *)
(** * The properties of the specification *)

Import JS ESTree Camelcase Examples.
Import JSFacts AffixFacts HandlerFacts CreateFacts.

(** C1. For every string [name], [isUnderscored name] is true exactly
    when [name] holds an underscore and differs from its upper-case
    form, whatever [toUpperCase] computes; with the ASCII upper-case,
    "FOO_BAR" gives false, "foo_bar" true and "foo" false. *)
Theorem isUnderscored_characterization :
  (forall (toUpperCase : string -> string) (name : string),
      isUnderscored toUpperCase name = true <->
      (exists pre post, name = pre ++ String "_"%char post) /\
      name <> toUpperCase name)
  /\ isUnderscored asciiToUpperCase "FOO_BAR" = false
  /\ isUnderscored asciiToUpperCase "foo_bar" = true
  /\ isUnderscored asciiToUpperCase "foo" = false.
Proof.
  split; [|repeat split; reflexivity].
  intros toUpperCase name. unfold isUnderscored, indexOf.
  rewrite andb_true_iff, negb_true_iff, String.eqb_neq, Z.gtb_lt.
  now rewrite indexOfFrom_underscore by lia.
Qed.

Lemma isUnderscored_characterization_witness :
  isUnderscored asciiToUpperCase "first_name" = true.
Proof.
  apply (proj1 isUnderscored_characterization asciiToUpperCase "first_name").
  split.
  - exists "first", "name". reflexivity.
  - simpl. discriminate.
Defined.

(** C5. [removePrefix] and [removeSuffix] try the matchers in the
    order of the array and strip with the first one whose offset is
    not negative; the matchers after it are not tried, and the value
    is returned as it is when no matcher strips. With allowedPrefixes
    ["opt_", "o_"], "opt_opt_id" becomes "opt_id". *)
Theorem remove_affix_first_match (value : string) (allowed : list Allowed) :
  ((forall m, In m allowed -> startAfter value m < 0) ->
   removePrefix value allowed = value)
  /\ (forall (before : list Allowed) m after,
         allowed = (before ++ m :: after)%list ->
         (forall m', In m' before -> startAfter value m' < 0) ->
         0 <= startAfter value m ->
         removePrefix value allowed
         = substr value (startAfter value m) None)
  /\ ((forall m, In m allowed -> endBefore value m < 0) ->
      removeSuffix value allowed = value)
  /\ (forall (before : list Allowed) m after,
         allowed = (before ++ m :: after)%list ->
         (forall m', In m' before -> endBefore value m' < 0) ->
         0 <= endBefore value m ->
         removeSuffix value allowed
         = substr value 0 (Some (endBefore value m)))
  /\ removePrefix "opt_opt_id" [AString "opt_"; AString "o_"] = "opt_id"
  /\ checkableName cfgOptPrefixes "opt_opt_id" = "opt_id".
Proof.
  repeat split.
  - intros H. rewrite <- (app_nil_r allowed).
    now rewrite removePrefix_skip.
  - intros before m after -> Hbefore Hm.
    rewrite removePrefix_skip by assumption. simpl.
    apply Z.geb_le in Hm. now rewrite Hm.
  - intros H. rewrite <- (app_nil_r allowed).
    now rewrite removeSuffix_skip.
  - intros before m after -> Hbefore Hm.
    rewrite removeSuffix_skip by assumption. simpl.
    apply Z.geb_le in Hm. now rewrite Hm.
Qed.

Lemma remove_affix_first_match_witness :
  removePrefix "o_opt_id" [AString "opt_"; AString "o_"; AString "o_o"]
  = "opt_id".
Proof.
  apply (proj1 (proj2 (remove_affix_first_match "o_opt_id"
                         [AString "opt_"; AString "o_"; AString "o_o"]))
           [AString "opt_"] (AString "o_") [AString "o_o"]).
  - reflexivity.
  - intros m' [<- | []]. reflexivity.
  - discriminate.
Defined.

(** C6. A literal prefix strips only when the value is the prefix
    followed by a remainder that is not empty, and a literal suffix
    only when the value is a front part that is not empty followed by
    the suffix; a literal at least as long as the value does not
    match, so a literal equal to the whole name never strips it. *)
Theorem literal_affix_leaves_remainder (value s : string) :
  (0 <= startAfterStringPrefix value s <->
   exists rest, rest <> EmptyString /\ value = s ++ rest)
  /\ (len s >= len value -> startAfterStringPrefix value s = -1)
  /\ (forall rest, rest <> EmptyString -> value = s ++ rest ->
        removePrefix value [AString s] = rest)
  /\ (0 <= endBeforeStringSuffix value s <->
      exists front, front <> EmptyString /\ value = front ++ s)
  /\ (len value - len s <= 0 -> endBeforeStringSuffix value s = -1)
  /\ (forall front, front <> EmptyString -> value = front ++ s ->
        removeSuffix value [AString s] = front)
  /\ removePrefix value [AString value] = value
  /\ removeSuffix value [AString value] = value.
Proof.
  repeat split.
  - intros H. now apply startAfterStringPrefix_inv in H as [_ H].
  - intros (rest & Hrest & ->).
    rewrite startAfterStringPrefix_found by assumption. apply len_nonneg.
  - intros H. unfold startAfterStringPrefix.
    destruct (len s >=? len value) eqn:E; [reflexivity|].
    rewrite Z.geb_leb in E. apply Z.leb_gt in E. lia.
  - intros rest Hrest ->. simpl.
    rewrite startAfterStringPrefix_found by assumption.
    pose proof (len_nonneg s) as Hl.
    destruct (len s >=? 0) eqn:E; [|rewrite Z.geb_leb in E;
                                     apply Z.leb_gt in E; lia].
    rewrite substr_from by lia. rewrite to_nat_len. apply drop_append.
  - intros H. apply endBeforeStringSuffix_inv in H as [_ (f & H1 & H2 & _)].
    now exists f.
  - intros (front & Hfront & ->).
    rewrite endBeforeStringSuffix_found by assumption. apply len_nonneg.
  - intros H. unfold endBeforeStringSuffix.
    apply Z.leb_le in H. now rewrite H.
  - intros front Hfront ->. simpl.
    rewrite endBeforeStringSuffix_found by assumption.
    pose proof (len_nonneg front) as Hl.
    destruct (len front >=? 0) eqn:E; [|rewrite Z.geb_leb in E;
                                         apply Z.leb_gt in E; lia].
    rewrite substr_upto by lia. rewrite to_nat_len. apply take_append.
  - apply literal_whole_name.
  - apply literal_whole_name.
Qed.

Lemma literal_affix_leaves_remainder_witness :
  removePrefix "opt_id" [AString "opt_"] = "id"
  /\ startAfterStringPrefix "opt_" "opt_" = -1.
Proof.
  split.
  - apply (proj1 (proj2 (proj2
             (literal_affix_leaves_remainder "opt_id" "opt_"))) "id").
    + discriminate.
    + reflexivity.
  - apply (proj1 (proj2 (literal_affix_leaves_remainder "opt_" "opt_"))).
    vm_compute. discriminate.
Defined.

(** C4, as stated, fails: with allowedPrefixes ["opt_", "o_"] the
    first pass turns "opt_opt_id" into "opt_id" and a second pass
    strips "opt_" once more. *)
Lemma checkableName_not_idempotent :
  checkableName cfgOptPrefixes "opt_opt_id" = "opt_id"
  /\ checkableName cfgOptPrefixes (checkableName cfgOptPrefixes "opt_opt_id")
     = "id"
  /\ checkableName cfgOptPrefixes (checkableName cfgOptPrefixes "opt_opt_id")
     <> checkableName cfgOptPrefixes "opt_opt_id".
Proof. repeat split. vm_compute. discriminate. Qed.

(** C4, amended. [checkableName] is idempotent for every
    configuration that lists no prefix and no suffix (the arrays are
    absent or empty): the underscore trim removes nothing from its
    own result. *)
Theorem checkableName_idempotent_without_affixes (cfg : Config)
  (name : string) :
  allowedPrefixes cfg = None \/ allowedPrefixes cfg = Some [] ->
  allowedSuffixes cfg = None \/ allowedSuffixes cfg = Some [] ->
  checkableName cfg (checkableName cfg name) = checkableName cfg name.
Proof.
  intros [Hp | Hp] [Hs | Hs]; unfold checkableName; rewrite Hp, Hs;
    cbn [removePrefix removeSuffix]; apply replaceEdgeUnderscores_idem.
Qed.

Lemma checkableName_idempotent_without_affixes_witness :
  checkableName cfgAlways (checkableName cfgAlways "__private_first_name_")
  = checkableName cfgAlways "__private_first_name_".
Proof.
  apply (checkableName_idempotent_without_affixes cfgAlways
           "__private_first_name_").
  - left. reflexivity.
  - left. reflexivity.
Defined.

(** C2. However often [report] is called on a node, and whatever
    nodes the driver visits and how often, at most one violation
    record references a given node; a second [report] of a node does
    nothing. For [var { category_id } = query;], whose identifier is
    reached as key and as value, the run emits exactly one record,
    for [category_id]. *)
Theorem report_at_most_once :
  (forall ast nodes node,
      (violationsOn node (reportAll ast nodes initialState) <= 1)%nat)
  /\ (forall ast node st,
         report ast node (report ast node st) = report ast node st)
  /\ (forall toUpperCase cfg ast visits node,
         (violationsOn node
            (fst (traverse toUpperCase cfg ast visits initialState))
          <= 1)%nat)
  /\ walk cfgAlways shorthandPattern shorthandPatternVisits initialState
     = (mkState [5%nat]
          [mkViolation 5 template (Some "category_id")], None)
  /\ violationsOn 5
       (fst (walk cfgAlways shorthandPattern shorthandPatternVisits
               initialState)) = 1%nat
  /\ map rendered
       (messages
          (fst (walk cfgAlways shorthandPattern shorthandPatternVisits
                  initialState)))
     = ["Identifier 'category_id' is not in camel case."].
Proof.
  split; [|split; [|split; [|repeat split]]].
  - intros ast nodes node. apply reportedOnce_violationsOn.
    apply reportAll_reportedOnce, reportedOnce_initial.
  - intros ast node st. apply report_known.
    destruct (in_dec Nat.eq_dec node (reported st)) as [Hin | Hout].
    + now rewrite report_known.
    + rewrite report_new by assumption. simpl.
      apply in_or_app. right. now left.
  - intros toUpperCase cfg ast visits node.
    apply reportedOnce_violationsOn.
    apply traverse_reportedOnce, reportedOnce_initial.
Qed.

(** C3, as stated, fails: in [var { category_id } = query;] the
    identifier is the key and the value of a property of an object
    pattern, and under the default policy it is reported. *)
Lemma shorthand_is_reported :
  nth_error shorthandPattern 5 = Some (ident "category_id" 4)
  /\ nth_error shorthandPattern 4 = Some (prop 3 5 5)
  /\ nth_error shorthandPattern 3 = Some (other "ObjectPattern" (Some 2%nat))
  /\ visit cfgAlways shorthandPattern 5 initialState
     = Normal (mkState [5%nat]
                 [mkViolation 5 template (Some "category_id")])
  /\ messages (fst (walk cfgAlways shorthandPattern shorthandPatternVisits
                      initialState)) <> [].
Proof. repeat split. vm_compute. discriminate. Qed.

(** C3, amended. The exempt occurrence is the key of a property of an
    object pattern whose value is another node (the [{key: value}]
    form): it produces no violation under any policy. The shorthand
    [{x}], whose key and value are one node, produces no violation
    under policy "never"; under any other policy it is checked as
    every property is, and reported when its checkable name is
    underscored and is no exception. *)
Theorem pattern_key_exempt (toUpperCase : string -> string)
  (cfg : Config) (ast : AST) (node : NodeRef) (n : ASTNode)
  (rawName : string) (p : NodeRef) (pn : ASTNode) (pp : NodeRef)
  (ppn : ASTNode) (st : RuleState) :
  nth_error ast node = Some n -> name n = Some rawName ->
  parent n = Some p -> nth_error ast p = Some pn ->
  type pn = "Property" ->
  parent pn = Some pp -> nth_error ast pp = Some ppn ->
  type ppn = "ObjectPattern" ->
  key pn = Some node ->
  (value pn <> Some node ->
   Identifier toUpperCase cfg ast node st = Normal st)
  /\ (value pn = Some node -> properties cfg = Str "never" ->
      Identifier toUpperCase cfg ast node st = Normal st)
  /\ (value pn = Some node ->
      strictEqualsString (properties cfg) "never" = false ->
      isException cfg (checkableName cfg rawName) = false ->
      Identifier toUpperCase cfg ast node st
      = Normal (if isUnderscored toUpperCase (checkableName cfg rawName)
                then report ast node st else st)).
Proof.
  intros Hn Hname Hp Hpn Hty Hpp Hppn Hpat Hkey. repeat split.
  - intros Hvalue. eapply Identifier_pattern_key; eassumption.
  - intros _ Hnever. eapply Identifier_never; eauto.
  - intros Hvalue Hpol Hex. eapply Identifier_shorthand; eassumption.
Qed.

Lemma pattern_key_exempt_witness :
  visit cfgAlways renamingPattern 5 initialState = Normal initialState
  /\ visit cfgNever shorthandPattern 5 initialState = Normal initialState.
Proof.
  split.
  - apply (proj1 (pattern_key_exempt asciiToUpperCase cfgAlways
                    renamingPattern 5 (ident "category_id" 4)
                    "category_id" 4 (prop 3 5 6) 3
                    (other "ObjectPattern" (Some 2%nat)) initialState
                    eq_refl eq_refl eq_refl eq_refl eq_refl eq_refl
                    eq_refl eq_refl eq_refl)).
    discriminate.
  - apply (proj1 (proj2 (pattern_key_exempt asciiToUpperCase cfgNever
                    shorthandPattern 5 (ident "category_id" 4)
                    "category_id" 4 (prop 3 5 5) 3
                    (other "ObjectPattern" (Some 2%nat)) initialState
                    eq_refl eq_refl eq_refl eq_refl eq_refl eq_refl
                    eq_refl eq_refl eq_refl)));
      reflexivity.
Defined.

(** C7. Under policy "never" an identifier whose parent is a member
    access or a property is not checked: the handler leaves the state
    as it is. [obj.foo_bar = 1] gives no violation under "never" and
    exactly one, on [foo_bar], under "always", which is also the
    policy of a run without options. *)
Theorem property_policy_switch :
  (forall toUpperCase cfg ast node n rawName p pn st,
      properties cfg = Str "never" ->
      nth_error ast node = Some n -> name n = Some rawName ->
      parent n = Some p -> nth_error ast p = Some pn ->
      type pn = "MemberExpression" \/ type pn = "Property" ->
      Identifier toUpperCase cfg ast node st = Normal st)
  /\ (forall toUpperCase newRegExp,
         lint toUpperCase newRegExp
           (Some (mkOptions (Str "never") None None None))
           assignToMember assignToMemberVisits
         = Normal (initialState, None))
  /\ (forall newRegExp,
         lint asciiToUpperCase newRegExp
           (Some (mkOptions (Str "always") None None None))
           assignToMember assignToMemberVisits
         = Normal (mkState [5%nat]
                     [mkViolation 5 template (Some "foo_bar")], None))
  /\ (forall newRegExp,
         lint asciiToUpperCase newRegExp None
           assignToMember assignToMemberVisits
         = Normal (mkState [5%nat]
                     [mkViolation 5 template (Some "foo_bar")], None))
  /\ rendered (mkViolation 5 template (Some "foo_bar"))
     = "Identifier 'foo_bar' is not in camel case.".
Proof.
  split; [|repeat split].
  intros toUpperCase cfg ast node n rawName p pn st Hnever Hn Hname Hp Hpn
    Hty.
  eapply Identifier_never; eassumption.
Qed.

Lemma property_policy_switch_witness :
  visit cfgNever assignToMember 5 initialState = Normal initialState.
Proof.
  apply (proj1 property_policy_switch asciiToUpperCase cfgNever
           assignToMember 5%nat (ident "foo_bar" 3) "foo_bar" 3%nat
           (member 2 4 5) initialState);
    try reflexivity.
  left. reflexivity.
Defined.

(** C8. The claim fails on [x = b_c.b_c]: the member access is a
    plain read, the right-hand side of an assignment to the
    identifier [x], and yet its property (node 6) is reported, by the
    branch meant for the names of objects, because the object is
    spelled as the property. On [x = a.b_c] the same property is not
    reported, and on [x.b_c = a.b_c] both properties are. *)
Theorem namesake_property_read_reported :
  nth_error plainReadOfNamesake 2 = Some (assign 1 3 4)
  /\ nth_error plainReadOfNamesake 3 = Some (ident "x" 2)
  /\ nth_error plainReadOfNamesake 4 = Some (member 2 5 6)
  /\ nth_error plainReadOfNamesake 6 = Some (ident "b_c" 4)
  /\ visit cfgAlways plainReadOfNamesake 6 initialState
     = Normal (mkState [6%nat] [mkViolation 6 template (Some "b_c")])
  /\ walk cfgAlways plainReadOfNamesake readOfVisits initialState
     = (mkState [5%nat; 6%nat]
          [mkViolation 5 template (Some "b_c");
           mkViolation 6 template (Some "b_c")], None)
  /\ walk cfgAlways plainRead readOfVisits initialState
     = (initialState, None)
  /\ walk cfgAlways memberToMember memberToMemberVisits initialState
     = (mkState [5%nat; 8%nat]
          [mkViolation 5 template (Some "b_c");
           mkViolation 8 template (Some "b_c")], None).
Proof. repeat split. Qed.

(** C9. A [properties] option that is neither "always" nor "never"
    does not make [create] fail: [create] returns what it returns for
    "always", the policy it resolves to is "always", and the whole
    run equals the run under "always" on every tree. *)
Theorem invalid_policy_normalized
  (toUpperCase : string -> string)
  (newRegExp : string -> string -> Completion RegExp)
  (p : Value) (pre suf exc : option (list StringOrRegExp)) :
  p <> Str "always" -> p <> Str "never" ->
  create newRegExp (Some (mkOptions p pre suf exc))
  = create newRegExp (Some (mkOptions (Str "always") pre suf exc))
  /\ (forall cfg,
         create newRegExp (Some (mkOptions p pre suf exc)) = Normal cfg ->
         properties cfg = Str "always")
  /\ (forall ast visits,
         lint toUpperCase newRegExp (Some (mkOptions p pre suf exc))
           ast visits
         = lint toUpperCase newRegExp
             (Some (mkOptions (Str "always") pre suf exc)) ast visits)
  /\ create newRegExp (Some (mkOptions p None None None))
     = Normal (mkConfig (Str "always") None None None).
Proof.
  intros Ha Hn.
  pose proof (create_invalid_policy newRegExp p pre suf exc Ha Hn) as Hc.
  repeat split.
  - exact Hc.
  - intros cfg. rewrite Hc. unfold create.
    cbn [o_properties o_allowedPrefixes o_allowedSuffixes o_exceptions].
    destruct (processArrayOfStringOrRegExp newRegExp pre); [|discriminate].
    destruct (processArrayOfStringOrRegExp newRegExp suf); [|discriminate].
    destruct (processArrayOfStringOrRegExp newRegExp exc); [|discriminate].
    cbn. intros H. injection H as <-. reflexivity.
  - intros ast visits. unfold lint. now rewrite Hc.
  - rewrite (create_invalid_policy newRegExp p None None None Ha Hn).
    reflexivity.
Qed.

Lemma invalid_policy_normalized_witness :
  lint asciiToUpperCase sampleRegExp
    (Some (mkOptions (Str "sometimes")
             (Some [OfRegExpLiteral (mkRegExpLiteral "pfx\d+_" None)])
             None None))
    assignToMember assignToMemberVisits
  = lint asciiToUpperCase sampleRegExp
      (Some (mkOptions (Str "always")
               (Some [OfRegExpLiteral (mkRegExpLiteral "pfx\d+_" None)])
               None None))
      assignToMember assignToMemberVisits.
Proof.
  apply (proj1 (proj2 (proj2
           (invalid_policy_normalized asciiToUpperCase sampleRegExp
              (Str "sometimes")
              (Some [OfRegExpLiteral (mkRegExpLiteral "pfx\d+_" None)])
              None None
              ltac:(discriminate) ltac:(discriminate))))).
Defined.

(** C10. A regular expression is stripped without the guard of the
    literal case: when its match is the whole value, at offset 0,
    [removePrefix] and [removeSuffix] return the empty string, where
    a literal equal to the value strips nothing. With the prefix (or
    suffix) [/.*/], the checkable name of "foo_bar" is empty; and an
    identifier whose checkable name is empty is not reported. *)
Theorem regexp_affix_strips_whole_name :
  (forall re v,
      exec re v = Some (mkMatch 0 v) ->
      removePrefix v [ARegExp re] = EmptyString
      /\ removeSuffix v [ARegExp re] = EmptyString)
  /\ (forall v,
         removePrefix v [AString v] = v /\ removeSuffix v [AString v] = v)
  /\ exec anything "foo_bar" = Some (mkMatch 0 "foo_bar")
  /\ checkableName cfgAnyPrefix "foo_bar" = EmptyString
  /\ checkableName cfgAnySuffix "foo_bar" = EmptyString
  /\ (forall toUpperCase cfg ast node n rawName st,
         nth_error ast node = Some n -> name n = Some rawName ->
         checkableName cfg rawName = EmptyString ->
         Identifier toUpperCase cfg ast node st = Normal st \/
         exists e, Identifier toUpperCase cfg ast node st = Throw e)
  /\ walk cfgAnyPrefix assignToName [3%nat] initialState
     = (initialState, None)
  /\ walk cfgAnySuffix assignToName [3%nat] initialState
     = (initialState, None)
  /\ walk cfgAlways assignToName [3%nat] initialState
     = (mkState [3%nat] [mkViolation 3 template (Some "foo_bar")], None).
Proof.
  split; [|split; [|split; [|split; [|split; [|split; [|repeat split]]]]]];
    try reflexivity.
  - intros re v H. pose proof (len_nonneg v) as Hl. split.
    + cbn [removePrefix startAfter]. unfold startAfterRegExpPrefix.
      rewrite H. cbn [index match0 Z.eqb negb].
      destruct (len v >=? 0) eqn:E;
        [|rewrite Z.geb_leb in E; apply Z.leb_gt in E; lia].
      rewrite substr_from by lia. rewrite to_nat_len.
      apply drop_all. lia.
    + cbn [removeSuffix endBefore]. unfold endBeforeRegExpSuffix.
      rewrite H. cbn [index match0]. rewrite Z.add_0_l, Z.eqb_refl.
      cbn [negb]. change (0 >=? 0) with true. cbv iota.
      now rewrite substr_upto by lia.
  - intros v. apply literal_whole_name.
  - intros toUpperCase cfg ast node n rawName st Hn Hname Hempty.
    eapply Identifier_not_underscored; try eassumption.
    rewrite Hempty. reflexivity.
Qed.

Lemma regexp_affix_strips_whole_name_witness :
  removePrefix "foo_bar" [ARegExp anything] = EmptyString
  /\ visit cfgAnyPrefix assignToName 3 initialState = Normal initialState.
Proof.
  split.
  - apply (proj1 regexp_affix_strips_whole_name anything "foo_bar").
    reflexivity.
  - destruct (proj1 (proj2 (proj2 (proj2 (proj2 (proj2
               regexp_affix_strips_whole_name)))))
               asciiToUpperCase cfgAnyPrefix assignToName 3%nat
               (ident "foo_bar" 2) "foo_bar" initialState
               eq_refl eq_refl eq_refl) as [H | [e H]].
    + exact H.
    + discriminate H.
Defined.

(* ------------------------------------------------------------------ *)
(** * Further facts: what stripping keeps of a name *)

Module StripFacts.
Import JS ESTree Camelcase JSFacts AffixFacts.

Lemma append_inj_length (a b a' b' : string) :
  a ++ b = a' ++ b' -> String.length a = String.length a' ->
  a = a' /\ b = b'.
Proof.
  revert a'; induction a as [|c a IH]; intros [|c' a'] H Hl;
    simpl in *; try discriminate.
  - now split.
  - injection H as -> H. injection Hl as Hl.
    destruct (IH a' H Hl) as [-> ->]. now split.
Qed.

Lemma dropLeadingUnderscores_split (s : string) :
  exists us, s = us ++ dropLeadingUnderscores s /\ allUnderscores us = true.
Proof.
  induction s as [|c s IH]; simpl.
  - now exists EmptyString.
  - destruct IH as (us & Hs & Hus). destruct (isUnderscore c) eqn:E.
    + exists (String c us). simpl. rewrite E, Hus. split; [|reflexivity].
      now rewrite <- Hs.
    + now exists EmptyString.
Qed.

Lemma dropTrailingUnderscores_split (s : string) :
  exists us, s = dropTrailingUnderscores s ++ us /\ allUnderscores us = true.
Proof.
  induction s as [|c s IH]; cbn [dropTrailingUnderscores].
  - now exists EmptyString.
  - destruct IH as (us & Hs & Hus).
    destruct (dropTrailingUnderscores s) as [|d u] eqn:E.
    + simpl in Hs. subst us.
      destruct (isUnderscore c) eqn:Ec.
      * exists (String c s). simpl. now rewrite Ec, Hus.
      * exists s. now split.
    + exists us. split; [|assumption]. simpl. now rewrite Hs at 1.
Qed.

Lemma append_underscore_nonempty (b : string) :
  b ++ "_" <> EmptyString.
Proof. destruct b; discriminate. Qed.

Lemma dropTrailingUnderscores_tail (s b : string) :
  dropTrailingUnderscores s <> b ++ "_".
Proof.
  revert b; induction s as [|c s IH]; intros b; cbn [dropTrailingUnderscores].
  - intros H. symmetry in H. now apply append_underscore_nonempty in H.
  - destruct (dropTrailingUnderscores s) as [|d u] eqn:E.
    + destruct (isUnderscore c) eqn:Ec.
      * intros H. symmetry in H. now apply append_underscore_nonempty in H.
      * destruct b as [|e b]; simpl; intros H.
        -- injection H as ->. cbv in Ec. discriminate Ec.
        -- injection H as _ H. symmetry in H.
           now apply append_underscore_nonempty in H.
    + destruct b as [|e b]; simpl; intros H.
      * discriminate H.
      * injection H as _ H. now apply (IH b).
Qed.

Lemma dropTrailingUnderscores_fixed (s : string) :
  (forall b, s <> b ++ "_") -> dropTrailingUnderscores s = s.
Proof.
  induction s as [|c s IH]; intros H; [reflexivity|].
  cbn [dropTrailingUnderscores]. rewrite IH.
  - destruct s as [|d s]; [|reflexivity].
    destruct (isUnderscore c) eqn:Ec; [|reflexivity].
    apply Ascii.eqb_eq in Ec. subst c. now destruct (H EmptyString).
  - intros b Hb. apply (H (String c b)). simpl. now rewrite Hb.
Qed.

Lemma replaceEdgeUnderscores_fixed (s : string) :
  noLeadingUnderscore s -> (forall b, s <> b ++ "_") ->
  replaceEdgeUnderscores s = s.
Proof.
  intros Hl Ht. unfold replaceEdgeUnderscores.
  rewrite dropLeadingUnderscores_fixed by assumption.
  now apply dropTrailingUnderscores_fixed.
Qed.

(** The trim takes underscores, and only underscores, off both ends. *)
Lemma replaceEdgeUnderscores_split (s : string) :
  exists l r,
    s = l ++ replaceEdgeUnderscores s ++ r
    /\ allUnderscores l = true /\ allUnderscores r = true.
Proof.
  unfold replaceEdgeUnderscores.
  destruct (dropLeadingUnderscores_split s) as (l & Hl & Hlu).
  destruct (dropTrailingUnderscores_split (dropLeadingUnderscores s))
    as (r & Hr & Hru).
  exists l, r. repeat split; try assumption.
  now rewrite <- Hr.
Qed.

(** [removePrefix] returns the value or what follows some of its
    first code units; [removeSuffix] the value or some of its first
    code units. *)
Lemma removePrefix_keeps_end (value : string) (allowed : list Allowed) :
  exists pre, value = pre ++ removePrefix value allowed.
Proof.
  induction allowed as [|m allowed IH]; simpl.
  - now exists EmptyString.
  - destruct (startAfter value m >=? 0) eqn:E; [|exact IH].
    apply Z.geb_le in E. rewrite substr_from by assumption.
    exists (take (Z.to_nat (startAfter value m)) value).
    symmetry. apply take_drop.
Qed.

Lemma removeSuffix_keeps_start (value : string) (allowed : list Allowed) :
  exists post, value = removeSuffix value allowed ++ post.
Proof.
  induction allowed as [|m allowed IH]; simpl.
  - exists EmptyString. now rewrite append_empty_r.
  - destruct (endBefore value m >=? 0) eqn:E; [|exact IH].
    apply Z.geb_le in E. rewrite substr_upto by assumption.
    exists (drop (Z.to_nat (endBefore value m)) value).
    symmetry. apply take_drop.
Qed.

Lemma checkableName_inside (cfg : Config) (name : string) :
  exists pre post, name = pre ++ checkableName cfg name ++ post.
Proof.
  unfold checkableName.
  destruct (replaceEdgeUnderscores_split name) as (l & r & Hn & _ & _).
  set (t := replaceEdgeUnderscores name) in *.
  assert (Hp : exists pre,
             t = pre ++ match allowedPrefixes cfg with
                        | Some allowed => removePrefix t allowed
                        | None => t
                        end).
  { destruct (allowedPrefixes cfg) as [allowed|].
    - apply removePrefix_keeps_end.
    - now exists EmptyString. }
  destruct Hp as (pre & Hp).
  set (u := match allowedPrefixes cfg with
            | Some allowed => removePrefix t allowed
            | None => t
            end) in *.
  assert (Hs : exists post,
             u = match allowedSuffixes cfg with
                 | Some allowed => removeSuffix u allowed
                 | None => u
                 end ++ post).
  { destruct (allowedSuffixes cfg) as [allowed|].
    - apply removeSuffix_keeps_start.
    - exists EmptyString. now rewrite append_empty_r. }
  destruct Hs as (post & Hs).
  exists (l ++ pre), (post ++ r).
  rewrite Hn at 1. rewrite Hp at 1. rewrite Hs at 1.
  now rewrite !append_assoc.
Qed.

(** ** Underscored names and their parts *)

Lemma underscore_inside (pre mid post : string) :
  (exists a b, mid = a ++ String "_"%char b) ->
  exists a b, pre ++ mid ++ post = a ++ String "_"%char b.
Proof.
  intros (a & b & ->). exists (pre ++ a), (b ++ post).
  rewrite !append_assoc. reflexivity.
Qed.

Lemma isUnderscored_iff (toUpperCase : string -> string) (name : string) :
  isUnderscored toUpperCase name = true <->
  (exists pre post, name = pre ++ String "_"%char post) /\
  name <> toUpperCase name.
Proof.
  unfold isUnderscored, indexOf.
  rewrite andb_true_iff, negb_true_iff, String.eqb_neq, Z.gtb_lt.
  now rewrite indexOfFrom_underscore by lia.
Qed.

Section CharWise.
Variable toUpperCase : string -> string.
Hypothesis upper_append :
  forall a b, toUpperCase (a ++ b) = toUpperCase a ++ toUpperCase b.
Hypothesis upper_length :
  forall a, String.length (toUpperCase a) = String.length a.

(** A part of a name that is not underscored is not underscored. *)
Lemma part_not_underscored (pre mid post : string) :
  isUnderscored toUpperCase (pre ++ mid ++ post) = false ->
  isUnderscored toUpperCase mid = false.
Proof.
  intros H. destruct (isUnderscored toUpperCase mid) eqn:E; [|reflexivity].
  apply isUnderscored_iff in E as [Hu Hne].
  assert (Hw : isUnderscored toUpperCase (pre ++ mid ++ post) = true);
    [|congruence].
  apply isUnderscored_iff. split; [now apply underscore_inside|].
  intros Heq. apply Hne.
  rewrite !upper_append in Heq.
  apply append_inj_length in Heq as [_ Heq];
    [|now rewrite upper_length].
  apply append_inj_length in Heq as [Heq _];
    [assumption | now rewrite upper_length].
Qed.

Lemma checkableName_not_underscored (cfg : Config) (name : string) :
  isUnderscored toUpperCase name = false ->
  isUnderscored toUpperCase (checkableName cfg name) = false.
Proof.
  intros H. destruct (checkableName_inside cfg name) as (pre & post & Hn).
  rewrite Hn in H. eapply part_not_underscored, H.
Qed.

End CharWise.

Lemma asciiToUpperCase_append (a b : string) :
  asciiToUpperCase (a ++ b) = asciiToUpperCase a ++ asciiToUpperCase b.
Proof. induction a as [|c a IH]; simpl; [reflexivity | now rewrite IH]. Qed.

Lemma asciiToUpperCase_length (a : string) :
  String.length (asciiToUpperCase a) = String.length a.
Proof. induction a as [|c a IH]; simpl; [reflexivity | now rewrite IH]. Qed.

End StripFacts.

(* ------------------------------------------------------------------ *)
(** * Further facts: the arrays of the options *)

Module OptionFacts.
Import JS ESTree Camelcase.

Section MapM.
Variables (A B : Type) (f : A -> Completion B).

Lemma mapM_Normal (l : list A) (out : list B) :
  mapM f l = Normal out <-> Forall2 (fun a b => f a = Normal b) l out.
Proof.
  revert out; induction l as [|a l IH]; intros out; simpl.
  - split.
    + intros H. injection H as <-. constructor.
    + intros H. inversion H. reflexivity.
  - split.
    + destruct (f a) as [b|e] eqn:Ea; cbn [bind]; [|discriminate].
      destruct (mapM f l) as [bs|e] eqn:El; cbn [bind]; [|discriminate].
      intros H. injection H as <-. constructor; [assumption|].
      now apply IH.
    + intros H. inversion H as [|a' b l' bs Hab Hrest]; subst.
      rewrite Hab. cbn [bind]. apply IH in Hrest. now rewrite Hrest.
Qed.

Lemma mapM_Throw (l : list A) (e : JsError) :
  mapM f l = Throw e -> exists a, In a l /\ f a = Throw e.
Proof.
  induction l as [|a l IH]; simpl; [discriminate|].
  destruct (f a) as [b|e'] eqn:Ea; cbn [bind].
  - destruct (mapM f l) as [bs|e'] eqn:El; cbn [bind]; [discriminate|].
    intros H. injection H as ->.
    destruct (IH eq_refl) as (x & Hx & Hfx). exists x. split; [now right|].
    exact Hfx.
  - intros H. injection H as ->. exists a. split; [now left | exact Ea].
Qed.

Lemma mapM_Throw_intro (l : list A) (a : A) (e : JsError) :
  In a l -> f a = Throw e -> exists e', mapM f l = Throw e'.
Proof.
  induction l as [|x l IH]; intros Hin Hf; [destruct Hin|]. simpl.
  destruct (f x) as [b|e'] eqn:Ex; cbn [bind]; [|now exists e'].
  destruct Hin as [-> | Hin]; [congruence|].
  destruct (IH Hin Hf) as (e' & He'). rewrite He'. now exists e'.
Qed.

Lemma mapM_length (l : list A) (out : list B) :
  mapM f l = Normal out -> List.length out = List.length l.
Proof.
  intros H. apply mapM_Normal in H.
  induction H; simpl; [reflexivity | now f_equal].
Qed.

End MapM.

Section Arrays.
Variable newRegExp : string -> string -> Completion RegExp.

Lemma processArray_absent :
  processArrayOfStringOrRegExp newRegExp None = Normal None.
Proof. reflexivity. Qed.

Lemma processArray_Normal (l : list StringOrRegExp)
  (rv : option (list Allowed)) :
  processArrayOfStringOrRegExp newRegExp (Some l) = Normal rv ->
  exists out,
    rv = Some out /\
    Forall2 (fun elt a =>
               match elt with
               | OfString s => a = AString s
               | OfRegExpLiteral r =>
                   exists re,
                     newRegExp (pattern r)
                       (match flags r with Some f => f | None => "" end)
                     = Normal re /\ a = ARegExp re
               end) l out.
Proof.
  unfold processArrayOfStringOrRegExp.
  destruct (mapM _ l) as [out|e] eqn:E; cbn [bind]; [|discriminate].
  intros H. injection H as <-. exists out. split; [reflexivity|].
  apply mapM_Normal in E.
  induction E as [|elt a l out Helt Hrest IH]; constructor; [|exact IH].
  destruct elt as [s|r].
  - now injection Helt as <-.
  - assert (Hf : match flags r with
                 | None | Some EmptyString => EmptyString
                 | Some f => f
                 end = match flags r with Some f => f | None => "" end)
      by (destruct (flags r) as [[|c f]|]; reflexivity).
    rewrite Hf in Helt.
    destruct (newRegExp (pattern r) _) as [re|e] eqn:Er; cbn [bind] in Helt;
      [|discriminate].
    injection Helt as <-. now exists re.
Qed.

Lemma processArray_Throw (l : list StringOrRegExp) (e : JsError) :
  processArrayOfStringOrRegExp newRegExp (Some l) = Throw e ->
  exists r,
    In (OfRegExpLiteral r) l /\
    newRegExp (pattern r) (match flags r with Some f => f | None => "" end)
    = Throw e.
Proof.
  unfold processArrayOfStringOrRegExp.
  destruct (mapM _ l) as [out|e'] eqn:E; cbn [bind]; [discriminate|].
  intros H. injection H as ->.
  apply mapM_Throw in E as (elt & Hin & Helt).
  destruct elt as [s|r]; [discriminate|].
  exists r. split; [assumption|].
  assert (Hf : match flags r with
               | None | Some EmptyString => EmptyString
               | Some f => f
               end = match flags r with Some f => f | None => "" end)
    by (destruct (flags r) as [[|c f]|]; reflexivity).
  rewrite Hf in Helt.
  destruct (newRegExp (pattern r) _) as [re|e'] eqn:Er; cbn [bind] in Helt;
    [discriminate|].
  now injection Helt as ->.
Qed.

Lemma processArray_Throw_intro (l : list StringOrRegExp)
  (r : RegExpLiteral) (e : JsError) :
  In (OfRegExpLiteral r) l ->
  newRegExp (pattern r) (match flags r with Some f => f | None => "" end)
  = Throw e ->
  exists e', processArrayOfStringOrRegExp newRegExp (Some l) = Throw e'.
Proof.
  intros Hin Hr. unfold processArrayOfStringOrRegExp.
  edestruct (mapM_Throw_intro _ _
               (fun elt =>
                  match elt with
                  | OfRegExpLiteral regex =>
                      re <- newRegExp (pattern regex)
                              (match flags regex with
                               | None | Some EmptyString => EmptyString
                               | Some f => f
                               end) ;;
                      Normal (ARegExp re)
                  | OfString s => Normal (AString s)
                  end) l (OfRegExpLiteral r) e Hin) as (e' & He').
  - assert (Hf : match flags r with
                 | None | Some EmptyString => EmptyString
                 | Some f => f
                 end = match flags r with Some f => f | None => "" end)
      by (destruct (flags r) as [[|c f]|]; reflexivity).
    rewrite Hf, Hr. reflexivity.
  - rewrite He'. now exists e'.
Qed.

Lemma processArray_strings (ss : list string) :
  processArrayOfStringOrRegExp newRegExp (Some (map OfString ss))
  = Normal (Some (map AString ss)).
Proof.
  unfold processArrayOfStringOrRegExp.
  assert (H : mapM (fun elt =>
                  match elt with
                  | OfRegExpLiteral regex =>
                      re <- newRegExp (pattern regex)
                              (match flags regex with
                               | None | Some EmptyString => EmptyString
                               | Some f => f
                               end) ;;
                      Normal (ARegExp re)
                  | OfString s => Normal (AString s)
                  end) (map OfString ss) = Normal (map AString ss)).
  { induction ss as [|s ss IH]; simpl; [reflexivity|].
    rewrite IH. reflexivity. }
  rewrite H. reflexivity.
Qed.

End Arrays.

End OptionFacts.

(* ------------------------------------------------------------------ *)
(** * Further properties of the rule *)

Import StripFacts OptionFacts.





(** X3. The checkable name is a run of consecutive code units of the
    raw name, for every configuration and whatever the regular
    expressions match: stripping never adds or reorders anything,
    and the checkable name is never longer than the raw name. *)
Theorem checkableName_is_part (cfg : Config) (name : string) :
  (exists pre post, name = pre ++ checkableName cfg name ++ post)
  /\ len (checkableName cfg name) <= len name.
Proof.
  destruct (checkableName_inside cfg name) as (pre & post & H).
  split; [now exists pre, post|].
  rewrite H at 2. rewrite !len_append.
  pose proof (len_nonneg pre). pose proof (len_nonneg post). lia.
Qed.

(** X4. Without prefixes and suffixes, the checkable name is the raw
    name less the underscores at its two ends: what is removed holds
    underscores only, and what is left neither begins nor ends with
    an underscore. *)
Theorem checkableName_trims_underscores (cfg : Config) (name : string) :
  allowedPrefixes cfg = None \/ allowedPrefixes cfg = Some [] ->
  allowedSuffixes cfg = None \/ allowedSuffixes cfg = Some [] ->
  exists l r,
    name = l ++ checkableName cfg name ++ r
    /\ allUnderscores l = true /\ allUnderscores r = true
    /\ noLeadingUnderscore (checkableName cfg name)
    /\ (forall b, checkableName cfg name <> b ++ "_").
Proof.
  intros Hp Hs.
  assert (Hc : checkableName cfg name = replaceEdgeUnderscores name).
  { unfold checkableName. destruct Hp as [-> | ->], Hs as [-> | ->];
      reflexivity. }
  rewrite Hc.
  destruct (replaceEdgeUnderscores_split name) as (l & r & H1 & H2 & H3).
  exists l, r. repeat split; try assumption.
  - apply dropTrailingUnderscores_head, dropLeadingUnderscores_head.
  - apply dropTrailingUnderscores_tail.
Qed.

Lemma checkableName_trims_underscores_witness :
  exists l r,
    "__private_name_" = l ++ checkableName cfgAlways "__private_name_" ++ r
    /\ allUnderscores l = true /\ allUnderscores r = true
    /\ noLeadingUnderscore (checkableName cfgAlways "__private_name_")
    /\ (forall b, checkableName cfgAlways "__private_name_" <> b ++ "_").
Proof.
  apply (checkableName_trims_underscores cfgAlways "__private_name_").
  - left. reflexivity.
  - left. reflexivity.
Defined.

(** X5. Stripping cannot turn an acceptable name into an unacceptable
    one: when [toUpperCase] works code unit by code unit, a raw name
    that is not underscored has a checkable name that is not
    underscored, for every configuration. *)
Theorem stripping_keeps_acceptable (toUpperCase : string -> string)
  (cfg : Config) (name : string) :
  (forall a b, toUpperCase (a ++ b) = toUpperCase a ++ toUpperCase b) ->
  (forall a, String.length (toUpperCase a) = String.length a) ->
  isUnderscored toUpperCase name = false ->
  isUnderscored toUpperCase (checkableName cfg name) = false.
Proof. intros Ha Hl. now apply checkableName_not_underscored. Qed.

Lemma stripping_keeps_acceptable_witness :
  isUnderscored asciiToUpperCase (checkableName cfgOptPrefixes "O_FIRST_NAME")
  = false.
Proof.
  apply (stripping_keeps_acceptable asciiToUpperCase cfgOptPrefixes
           "O_FIRST_NAME").
  - exact asciiToUpperCase_append.
  - exact asciiToUpperCase_length.
  - reflexivity.
Defined.

(** X6. An identifier whose raw name is not underscored (no
    underscore, or equal to its upper-case form) is never reported,
    whatever the configuration and its place in the tree, when
    [toUpperCase] works code unit by code unit. *)
Theorem acceptable_name_never_reported (toUpperCase : string -> string)
  (cfg : Config) (ast : AST) (node : NodeRef) (n : ASTNode)
  (rawName : string) (st : RuleState) :
  (forall a b, toUpperCase (a ++ b) = toUpperCase a ++ toUpperCase b) ->
  (forall a, String.length (toUpperCase a) = String.length a) ->
  nth_error ast node = Some n -> name n = Some rawName ->
  isUnderscored toUpperCase rawName = false ->
  Identifier toUpperCase cfg ast node st = Normal st \/
  exists e, Identifier toUpperCase cfg ast node st = Throw e.
Proof.
  intros Ha Hl Hn Hname Hu.
  eapply Identifier_not_underscored; try eassumption.
  now apply checkableName_not_underscored.
Qed.

Lemma acceptable_name_never_reported_witness :
  visit cfgOptPrefixes (assignTo "FIRST_NAME") 3 initialState
  = Normal initialState.
Proof.
  destruct (acceptable_name_never_reported asciiToUpperCase cfgOptPrefixes
              (assignTo "FIRST_NAME") 3 (ident "FIRST_NAME" 2)
              "FIRST_NAME" initialState
              asciiToUpperCase_append asciiToUpperCase_length
              eq_refl eq_refl eq_refl) as [H | [e H]].
  - exact H.
  - discriminate H.
Defined.

(** X7. A regular expression strips as a prefix exactly when [exec]
    reports its leftmost match at offset 0: the matched text is cut
    off, even when nothing or everything is matched, and the later
    prefixes are not tried. A match that begins further on, or no
    match, leaves the value to the later prefixes. *)
Theorem regexp_prefix_strip (value : string) (re : RegExp)
  (others : list Allowed) :
  (forall m rest,
      value = m ++ rest -> exec re value = Some (mkMatch 0 m) ->
      removePrefix value (ARegExp re :: others) = rest)
  /\ (forall mt,
         exec re value = Some mt -> index mt <> 0 ->
         removePrefix value (ARegExp re :: others)
         = removePrefix value others)
  /\ (exec re value = None ->
      removePrefix value (ARegExp re :: others)
      = removePrefix value others).
Proof.
  repeat split.
  - intros m rest -> H. cbn [removePrefix startAfter].
    unfold startAfterRegExpPrefix. rewrite H. cbn [index match0 Z.eqb negb].
    pose proof (len_nonneg m) as Hl.
    destruct (len m >=? 0) eqn:E;
      [|rewrite Z.geb_leb in E; apply Z.leb_gt in E; lia].
    rewrite substr_from by lia. rewrite to_nat_len. apply drop_append.
  - intros mt H Hi. cbn [removePrefix startAfter].
    unfold startAfterRegExpPrefix. rewrite H.
    apply Z.eqb_neq in Hi. rewrite Hi. reflexivity.
  - intros H. cbn [removePrefix startAfter].
    unfold startAfterRegExpPrefix. rewrite H. reflexivity.
Qed.

Lemma regexp_prefix_strip_witness :
  removePrefix "pfx23_camelCase" [ARegExp pfxDigits; AString "pfx"]
  = "camelCase"
  /\ removePrefix "xpfx23_camelCase" [ARegExp pfxDigits]
     = "xpfx23_camelCase".
Proof.
  split.
  - apply (proj1 (regexp_prefix_strip "pfx23_camelCase" pfxDigits
                    [AString "pfx"]) "pfx23_" "camelCase");
      reflexivity.
  - apply (proj1 (proj2 (regexp_prefix_strip "xpfx23_camelCase" pfxDigits
                           [])) (mkMatch 1 "pfx23_")).
    + reflexivity.
    + discriminate.
Defined.

(** X8. A regular expression strips as a suffix exactly when the
    leftmost match that [exec] reports ends where the value ends: the
    value is cut where that match begins. When the leftmost match ends
    earlier, the value is left to the later suffixes, whether or not
    a later match would reach the end. *)
Theorem regexp_suffix_strip (value : string) (re : RegExp)
  (others : list Allowed) :
  (forall front m,
      value = front ++ m ->
      exec re value = Some (mkMatch (len front) m) ->
      removeSuffix value (ARegExp re :: others) = front)
  /\ (forall mt,
         exec re value = Some mt ->
         index mt + len (match0 mt) <> len value ->
         removeSuffix value (ARegExp re :: others)
         = removeSuffix value others)
  /\ (exec re value = None ->
      removeSuffix value (ARegExp re :: others)
      = removeSuffix value others).
Proof.
  repeat split.
  - intros front m -> H. cbn [removeSuffix endBefore].
    unfold endBeforeRegExpSuffix. rewrite H. cbn [index match0].
    rewrite len_append, Z.eqb_refl. cbn [negb].
    pose proof (len_nonneg front) as Hl.
    destruct (len front >=? 0) eqn:E;
      [|rewrite Z.geb_leb in E; apply Z.leb_gt in E; lia].
    rewrite substr_upto by lia. rewrite to_nat_len. apply take_append.
  - intros mt H Hi. cbn [removeSuffix endBefore].
    unfold endBeforeRegExpSuffix. rewrite H.
    apply Z.eqb_neq in Hi. rewrite Hi. reflexivity.
  - intros H. cbn [removeSuffix endBefore].
    unfold endBeforeRegExpSuffix. rewrite H. reflexivity.
Qed.

Lemma regexp_suffix_strip_witness :
  removeSuffix "camelCase_kHz" [ARegExp hertz] = "camelCase"
  /\ removeSuffix "a_Hz_MHz" [ARegExp hertz] = "a_Hz_MHz".
Proof.
  split.
  - apply (proj1 (regexp_suffix_strip "camelCase_kHz" hertz [])
             "camelCase" "_kHz");
      reflexivity.
  - apply (proj1 (proj2 (regexp_suffix_strip "a_Hz_MHz" hertz []))
             (mkMatch 1 "_Hz")).
    + reflexivity.
    + discriminate.
Defined.

(** X9. [processArrayOfStringOrRegExp] leaves an absent array absent
    and keeps the length and the order of a given one: each string
    stays as it is, and each RegExpLiteral becomes what the [RegExp]
    constructor returns for its pattern and its flags (no flags when
    absent). It throws exactly when the constructor throws on one of
    the literals, with the error of the constructor; an array of
    strings never throws. *)
Theorem processArray_elementwise
  (newRegExp : string -> string -> Completion RegExp)
  (l : list StringOrRegExp) :
  processArrayOfStringOrRegExp newRegExp None = Normal None
  /\ (forall rv,
         processArrayOfStringOrRegExp newRegExp (Some l) = Normal rv ->
         exists out,
           rv = Some out /\ List.length out = List.length l /\
           Forall2 (fun elt a =>
                      match elt with
                      | OfString s => a = AString s
                      | OfRegExpLiteral r =>
                          exists re,
                            newRegExp (pattern r)
                              (match flags r with
                               | Some f => f
                               | None => ""
                               end) = Normal re
                            /\ a = ARegExp re
                      end) l out)
  /\ (forall e,
         processArrayOfStringOrRegExp newRegExp (Some l) = Throw e ->
         exists r,
           In (OfRegExpLiteral r) l /\
           newRegExp (pattern r)
             (match flags r with Some f => f | None => "" end) = Throw e)
  /\ (forall r e,
         In (OfRegExpLiteral r) l ->
         newRegExp (pattern r)
           (match flags r with Some f => f | None => "" end) = Throw e ->
         exists e',
           processArrayOfStringOrRegExp newRegExp (Some l) = Throw e')
  /\ (forall ss,
         processArrayOfStringOrRegExp newRegExp (Some (map OfString ss))
         = Normal (Some (map AString ss))).
Proof.
  split; [reflexivity|]. split; [|split; [|split]].
  - intros rv H. apply processArray_Normal in H as (out & -> & HF).
    exists out. repeat split; [|exact HF].
    clear -HF. induction HF; simpl; [reflexivity | now f_equal].
  - intros e. apply processArray_Throw.
  - intros r e. apply processArray_Throw_intro.
  - apply processArray_strings.
Qed.

Lemma processArray_elementwise_witness :
  exists e',
    processArrayOfStringOrRegExp sampleRegExp
      (Some [OfString "opt_"; OfRegExpLiteral (mkRegExpLiteral "(" None)])
    = Throw e'.
Proof.
  apply (proj1 (proj2 (proj2 (proj2
           (processArray_elementwise sampleRegExp
              [OfString "opt_";
               OfRegExpLiteral (mkRegExpLiteral "(" None)]))))
           (mkRegExpLiteral "(" None) SyntaxError).
  - right. left. reflexivity.
  - reflexivity.
Defined.

(** X10. [create] throws exactly when the [RegExp] constructor throws
    on a RegExpLiteral of [allowedPrefixes], [allowedSuffixes] or
    [exceptions], and then with an error of the constructor; the run
    ends there, before any identifier is visited. *)
Theorem create_throws_with_constructor
  (toUpperCase : string -> string)
  (newRegExp : string -> string -> Completion RegExp)
  (options : Options) :
  (forall e,
      create newRegExp (Some options) = Throw e ->
      exists r,
        In (OfRegExpLiteral r)
           (match o_allowedPrefixes options with Some l => l | None => [] end
            ++ match o_allowedSuffixes options with Some l => l | None => [] end
            ++ match o_exceptions options with Some l => l | None => [] end)
        /\ newRegExp (pattern r)
             (match flags r with Some f => f | None => "" end) = Throw e)
  /\ (forall r e,
         In (OfRegExpLiteral r)
            (match o_allowedPrefixes options with Some l => l | None => [] end
             ++ match o_allowedSuffixes options with Some l => l | None => [] end
             ++ match o_exceptions options with Some l => l | None => [] end)
         ->
         newRegExp (pattern r)
           (match flags r with Some f => f | None => "" end) = Throw e ->
         exists e',
           create newRegExp (Some options) = Throw e'
           /\ forall ast visits,
               lint toUpperCase newRegExp (Some options) ast visits
               = Throw e').
Proof.
  destruct options as [pol pre suf exc].
  cbn [o_allowedPrefixes o_allowedSuffixes o_exceptions].
  split.
  - intros e. unfold create.
    cbn [o_properties o_allowedPrefixes o_allowedSuffixes o_exceptions].
    destruct (processArrayOfStringOrRegExp newRegExp pre) as [a1|e1] eqn:E1;
      cbn [bind].
    + destruct (processArrayOfStringOrRegExp newRegExp suf) as [a2|e2]
        eqn:E2; cbn [bind].
      * destruct (processArrayOfStringOrRegExp newRegExp exc) as [a3|e3]
          eqn:E3; cbn [bind]; [discriminate|].
        intros H. injection H as ->.
        destruct exc as [l|]; [|discriminate].
        apply processArray_Throw in E3 as (r & Hin & Hr).
        exists r. split; [|exact Hr].
        apply in_or_app. right. apply in_or_app. now right.
      * intros H. injection H as ->.
        destruct suf as [l|]; [|discriminate].
        apply processArray_Throw in E2 as (r & Hin & Hr).
        exists r. split; [|exact Hr].
        apply in_or_app. right. apply in_or_app. now left.
    + intros H. injection H as ->.
      destruct pre as [l|]; [|discriminate].
      apply processArray_Throw in E1 as (r & Hin & Hr).
      exists r. split; [|exact Hr]. apply in_or_app. now left.
  - intros r e Hin Hr.
    assert (Hc : exists e',
               create newRegExp (Some (mkOptions pol pre suf exc))
               = Throw e').
    { unfold create.
      cbn [o_properties o_allowedPrefixes o_allowedSuffixes o_exceptions].
      destruct (processArrayOfStringOrRegExp newRegExp pre) as [a1|e1]
        eqn:E1; cbn [bind]; [|now exists e1].
      destruct (processArrayOfStringOrRegExp newRegExp suf) as [a2|e2]
        eqn:E2; cbn [bind]; [|now exists e2].
      destruct (processArrayOfStringOrRegExp newRegExp exc) as [a3|e3]
        eqn:E3; cbn [bind]; [|now exists e3].
      exfalso.
      apply in_app_or in Hin as [Hin | Hin];
        [|apply in_app_or in Hin as [Hin | Hin]].
      - destruct pre as [l|]; [|destruct Hin].
        destruct (processArray_Throw_intro newRegExp l r e Hin Hr)
          as (e' & He'). congruence.
      - destruct suf as [l|]; [|destruct Hin].
        destruct (processArray_Throw_intro newRegExp l r e Hin Hr)
          as (e' & He'). congruence.
      - destruct exc as [l|]; [|destruct Hin].
        destruct (processArray_Throw_intro newRegExp l r e Hin Hr)
          as (e' & He'). congruence. }
    destruct Hc as (e' & He'). exists e'. split; [exact He'|].
    intros ast visits. unfold lint. now rewrite He'.
Qed.

Lemma create_throws_with_constructor_witness :
  exists e',
    create sampleRegExp
      (Some (mkOptions (Str "never") None
               (Some [OfRegExpLiteral (mkRegExpLiteral "_[kMG]?Hz" None);
                      OfRegExpLiteral (mkRegExpLiteral "(" None)])
               None))
    = Throw e'
    /\ forall ast visits,
        lint asciiToUpperCase sampleRegExp
          (Some (mkOptions (Str "never") None
                   (Some [OfRegExpLiteral (mkRegExpLiteral "_[kMG]?Hz" None);
                          OfRegExpLiteral (mkRegExpLiteral "(" None)])
                   None)) ast visits
        = Throw e'.
Proof.
  apply (proj2 (create_throws_with_constructor asciiToUpperCase sampleRegExp
                  (mkOptions (Str "never") None
                     (Some [OfRegExpLiteral
                              (mkRegExpLiteral "_[kMG]?Hz" None);
                            OfRegExpLiteral (mkRegExpLiteral "(" None)])
                     None))
           (mkRegExpLiteral "(" None) SyntaxError).
  - right. left. reflexivity.
  - reflexivity.
Defined.

(** X11. The configuration that [create] returns has the policy
    "never" when the option is the string "never", and "always" in
    every other case, so the policy is always one of the two; an
    absent array stays absent and a given one stays present, empty
    or not. Without options the policy is "always" and no array is
    present. *)
Theorem create_resolves_options
  (newRegExp : string -> string -> Completion RegExp) :
  (forall options cfg,
      create newRegExp (Some options) = Normal cfg ->
      ((o_properties options = Str "never" /\ properties cfg = Str "never")
       \/ (o_properties options <> Str "never"
           /\ properties cfg = Str "always"))
      /\ (o_allowedPrefixes options = None <-> allowedPrefixes cfg = None)
      /\ (o_allowedSuffixes options = None <-> allowedSuffixes cfg = None)
      /\ (o_exceptions options = None <-> exceptions cfg = None))
  /\ create newRegExp None = Normal (mkConfig (Str "always") None None None).
Proof.
  split; [|reflexivity].
  intros [pol pre suf exc] cfg. unfold create.
  cbn [o_properties o_allowedPrefixes o_allowedSuffixes o_exceptions].
  destruct (processArrayOfStringOrRegExp newRegExp pre) as [a1|e1] eqn:E1;
    cbn [bind]; [|discriminate].
  destruct (processArrayOfStringOrRegExp newRegExp suf) as [a2|e2] eqn:E2;
    cbn [bind]; [|discriminate].
  destruct (processArrayOfStringOrRegExp newRegExp exc) as [a3|e3] eqn:E3;
    cbn [bind]; [|discriminate].
  intros H. injection H as <-.
  cbn [properties allowedPrefixes allowedSuffixes exceptions].
  assert (Habs : forall iv rv,
             processArrayOfStringOrRegExp newRegExp iv = Normal rv ->
             (iv = None <-> rv = None)).
  { intros [l|] rv Hrv.
    - apply processArray_Normal in Hrv as (out & -> & _).
      split; discriminate.
    - injection Hrv as <-. tauto. }
  split; [|repeat split; try (apply Habs; assumption);
           apply (Habs _ _ ltac:(eassumption))].
  destruct (String.eqb_spec "never" "never") as [_|Hne]; [|congruence].
  destruct pol as [| |[|]|[|z|z]|[|c s]];
    try (right; split; [discriminate | reflexivity]).
  cbn [orEmptyString strictEqualsString].
  destruct (String.eqb (String c s) "always") eqn:Ea.
  - apply String.eqb_eq in Ea. rewrite Ea. right.
    split; [discriminate | reflexivity].
  - destruct (String.eqb (String c s) "never") eqn:En; cbn [negb andb].
    + apply String.eqb_eq in En. rewrite En. left. now split.
    + apply String.eqb_neq in En. right. split; [congruence | reflexivity].
Qed.

Lemma create_resolves_options_witness :
  exists cfg,
    create sampleRegExp
      (Some (mkOptions (Str "never") (Some []) None None)) = Normal cfg
    /\ properties cfg = Str "never"
    /\ allowedPrefixes cfg <> None /\ allowedSuffixes cfg = None.
Proof.
  exists (mkConfig (Str "never") (Some []) None None).
  destruct (proj1 (create_resolves_options sampleRegExp)
              (mkOptions (Str "never") (Some []) None None)
              (mkConfig (Str "never") (Some []) None None) eq_refl)
    as (Hpol & Hpre & Hsuf & _).
  split; [reflexivity|]. split; [reflexivity|]. split.
  - intros H. apply Hpre in H. discriminate H.
  - apply Hsuf. reflexivity.
Defined.

(** X12. For an identifier whose parent is neither a member access
    nor a property, the policy is not consulted: the handler returns
    the same under every [properties] value, and it reports exactly
    when the checkable name is no exception, is underscored, and the
    parent is not a call. *)
Theorem bare_identifier_ignores_policy (toUpperCase : string -> string)
  (cfg : Config) (policy : Value) (ast : AST) (node : NodeRef)
  (n : ASTNode) (rawName : string) (p : NodeRef) (pn : ASTNode)
  (st : RuleState) :
  nth_error ast node = Some n -> name n = Some rawName ->
  parent n = Some p -> nth_error ast p = Some pn ->
  type pn <> "MemberExpression" -> type pn <> "Property" ->
  Identifier toUpperCase
    (mkConfig policy (allowedPrefixes cfg) (allowedSuffixes cfg)
       (exceptions cfg)) ast node st
  = Identifier toUpperCase cfg ast node st
  /\ Identifier toUpperCase cfg ast node st
     = Normal (if negb (isException cfg (checkableName cfg rawName))
                  && isUnderscored toUpperCase (checkableName cfg rawName)
                  && negb (String.eqb (type pn) "CallExpression")
               then report ast node st else st).
Proof.
  intros Hn Hname Hp Hpn Hm Hprop.
  apply String.eqb_neq in Hm. apply String.eqb_neq in Hprop.
  rewrite (Identifier_bare toUpperCase cfg ast node n rawName p pn
             Hn Hname Hp Hpn st Hm Hprop).
  split; [|reflexivity].
  apply (Identifier_bare toUpperCase
           (mkConfig policy (allowedPrefixes cfg) (allowedSuffixes cfg)
              (exceptions cfg)) ast node n rawName p pn
           Hn Hname Hp Hpn st Hm Hprop).
Qed.

Lemma bare_identifier_ignores_policy_witness :
  visit cfgNever (assignTo "first_name") 3 initialState
  = Normal (mkState [3%nat]
              [mkViolation 3 template (Some "first_name")]).
Proof.
  unfold visit.
  rewrite (proj2 (bare_identifier_ignores_policy asciiToUpperCase cfgNever
                    (Str "always") (assignTo "first_name") 3
                    (ident "first_name" 2) "first_name" 2 (assign 1 3 4)
                    initialState eq_refl eq_refl eq_refl eq_refl
                    ltac:(discriminate) ltac:(discriminate))).
  reflexivity.
Defined.

(** X13. An identifier whose parent is a call is never reported, be
    it the function called or an argument of the call. *)
Theorem call_parent_never_reported (toUpperCase : string -> string)
  (cfg : Config) (ast : AST) (node : NodeRef) (n : ASTNode)
  (rawName : string) (p : NodeRef) (pn : ASTNode) (st : RuleState) :
  nth_error ast node = Some n -> name n = Some rawName ->
  parent n = Some p -> nth_error ast p = Some pn ->
  type pn = "CallExpression" ->
  Identifier toUpperCase cfg ast node st = Normal st.
Proof.
  intros Hn Hname Hp Hpn Hty.
  rewrite (Identifier_bare toUpperCase cfg ast node n rawName p pn
             Hn Hname Hp Hpn st);
    rewrite Hty; try reflexivity.
  rewrite andb_false_r. reflexivity.
Qed.

Lemma call_parent_never_reported_witness :
  visit cfgAlways callWithArgument 3 initialState = Normal initialState
  /\ visit cfgAlways callWithArgument 4 initialState = Normal initialState.
Proof.
  split.
  - apply (call_parent_never_reported asciiToUpperCase cfgAlways
             callWithArgument 3 (ident "do_something" 2) "do_something"
             2 (other "CallExpression" (Some 1%nat)) initialState);
      reflexivity.
  - apply (call_parent_never_reported asciiToUpperCase cfgAlways
             callWithArgument 4 (ident "arg_one" 2) "arg_one"
             2 (other "CallExpression" (Some 1%nat)) initialState);
      reflexivity.
Defined.

(** X14. An identifier below a member access that no assignment
    holds directly (a read in a declaration, a test, a call, a longer
    chain) is not reported, under any policy, unless the object of
    the member access is an identifier spelled as the node. *)
Theorem member_outside_assignment_not_reported
  (toUpperCase : string -> string) (cfg : Config) (ast : AST)
  (node : NodeRef) (n : ASTNode) (rawName : string)
  (p : NodeRef) (pn : ASTNode) (a : NodeRef) (an : ASTNode)
  (o : NodeRef) (on : ASTNode) (st : RuleState) :
  nth_error ast node = Some n -> name n = Some rawName ->
  parent n = Some p -> nth_error ast p = Some pn ->
  type pn = "MemberExpression" ->
  object pn = Some o -> nth_error ast o = Some on ->
  parent pn = Some a -> nth_error ast a = Some an ->
  ~ (type on = "Identifier" /\ name on = Some rawName) ->
  type an <> "AssignmentExpression" ->
  Identifier toUpperCase cfg ast node st = Normal st.
Proof.
  intros Hn Hname Hp Hpn Hty Hobj Hon Ha Han Hsame Hassign.
  eapply Identifier_member_elsewhere; try eassumption.
  - destruct (String.eqb (type on) "Identifier") eqn:E1; [|reflexivity].
    destruct (sameName (name on) (Some rawName)) eqn:E2; [|reflexivity].
    exfalso. apply Hsame. apply String.eqb_eq in E1. split; [exact E1|].
    destruct (name on) as [s|]; [|discriminate].
    simpl in E2. apply String.eqb_eq in E2. now subst s.
  - now apply String.eqb_neq.
Qed.

Lemma member_outside_assignment_not_reported_witness :
  visit cfgAlways declareFromMember 6 initialState = Normal initialState
  /\ visit cfgAlways (methodCall "foo" "do_something") 5 initialState
     = Normal initialState.
Proof.
  split.
  - apply (member_outside_assignment_not_reported asciiToUpperCase
             cfgAlways declareFromMember 6 (ident "baz_boom" 4)
             "baz_boom" 4 (member 2 5 6) 2
             (other "VariableDeclarator" (Some 1%nat)) 5 (ident "bar" 4)
             initialState);
      try reflexivity; try discriminate.
    intros [_ H]. discriminate H.
  - apply (member_outside_assignment_not_reported asciiToUpperCase
             cfgAlways (methodCall "foo" "do_something") 5
             (ident "do_something" 3) "do_something" 3 (member 2 4 5) 2
             (other "CallExpression" (Some 1%nat)) 4 (ident "foo" 3)
             initialState);
      try reflexivity; try discriminate.
    intros [_ H]. discriminate H.
Defined.

(** X15. An identifier that is the object of a member access is
    reported whenever its checkable name is underscored and is no
    exception, unless the policy is "never"; what holds the member
    access does not matter, so a call does not exempt it. *)
Theorem member_object_reported (toUpperCase : string -> string)
  (cfg : Config) (ast : AST) (node : NodeRef) (n : ASTNode)
  (rawName : string) (p : NodeRef) (pn : ASTNode) (a : NodeRef)
  (an : ASTNode) (st : RuleState) :
  nth_error ast node = Some n -> name n = Some rawName ->
  type n = "Identifier" ->
  parent n = Some p -> nth_error ast p = Some pn ->
  type pn = "MemberExpression" -> object pn = Some node ->
  parent pn = Some a -> nth_error ast a = Some an ->
  properties cfg <> Str "never" ->
  isException cfg (checkableName cfg rawName) = false ->
  Identifier toUpperCase cfg ast node st
  = Normal (if isUnderscored toUpperCase (checkableName cfg rawName)
            then report ast node st else st).
Proof.
  intros Hn Hname Hid Hp Hpn Hty Hobj Ha Han Hpol Hex.
  eapply Identifier_member_object; try eassumption.
  destruct (properties cfg) as [| | | |s]; try reflexivity.
  simpl. apply String.eqb_neq. congruence.
Qed.

Lemma member_object_reported_witness :
  visit cfgAlways (methodCall "foo_bar" "baz") 4 initialState
  = Normal (mkState [4%nat] [mkViolation 4 template (Some "foo_bar")]).
Proof.
  unfold visit.
  rewrite (member_object_reported asciiToUpperCase cfgAlways
             (methodCall "foo_bar" "baz") 4 (ident "foo_bar" 3) "foo_bar"
             3 (member 2 4 5) 2 (other "CallExpression" (Some 1%nat))
             initialState eq_refl eq_refl eq_refl eq_refl eq_refl eq_refl
             eq_refl eq_refl eq_refl ltac:(discriminate) eq_refl).
  reflexivity.
Defined.

(** X16. Under a policy other than "never", an identifier that is a
    key or a value of a property of anything but an object pattern
    (an object literal) is reported exactly when its checkable name
    is underscored and is no exception. *)
Theorem literal_property_checked (toUpperCase : string -> string)
  (cfg : Config) (ast : AST) (node : NodeRef) (n : ASTNode)
  (rawName : string) (p : NodeRef) (pn : ASTNode) (pp : NodeRef)
  (ppn : ASTNode) (st : RuleState) :
  nth_error ast node = Some n -> name n = Some rawName ->
  parent n = Some p -> nth_error ast p = Some pn ->
  type pn = "Property" ->
  parent pn = Some pp -> nth_error ast pp = Some ppn ->
  type ppn <> "ObjectPattern" ->
  properties cfg <> Str "never" ->
  isException cfg (checkableName cfg rawName) = false ->
  Identifier toUpperCase cfg ast node st
  = Normal (if isUnderscored toUpperCase (checkableName cfg rawName)
            then report ast node st else st).
Proof.
  intros Hn Hname Hp Hpn Hty Hpp Hppn Hpat Hpol Hex.
  eapply Identifier_property; try eassumption.
  - now apply String.eqb_neq.
  - destruct (properties cfg) as [| | | |s]; try reflexivity.
    simpl. apply String.eqb_neq. congruence.
Qed.

Lemma literal_property_checked_witness :
  visit cfgAlways objectLiteral 6 initialState
  = Normal (mkState [6%nat] [mkViolation 6 template (Some "bar_baz")]).
Proof.
  unfold visit.
  rewrite (literal_property_checked asciiToUpperCase cfgAlways
             objectLiteral 6 (ident "bar_baz" 5) "bar_baz" 5 (prop 4 6 7)
             4 (other "ObjectExpression" (Some 2%nat)) initialState
             eq_refl eq_refl eq_refl eq_refl eq_refl eq_refl eq_refl
             ltac:(discriminate) ltac:(discriminate) eq_refl).
  reflexivity.
Defined.

(** X17. A call of the handler that returns either leaves the state
    as it is, or adds the node to [reported] and emits one record,
    which references the node and carries its raw name, underscores
    and affixes included, though the check ran on the checkable
    name. *)
Theorem violation_carries_raw_name (toUpperCase : string -> string)
  (cfg : Config) (ast : AST) (node : NodeRef) (st st' : RuleState) :
  Identifier toUpperCase cfg ast node st = Normal st' ->
  st' = st \/
  exists n rawName,
    nth_error ast node = Some n /\ name n = Some rawName
    /\ ~ In node (reported st)
    /\ reported st' = (reported st ++ [node])%list
    /\ messages st'
       = (messages st ++ [mkViolation node template (Some rawName)])%list
    /\ rendered (mkViolation node template (Some rawName))
       = "Identifier '" ++ rawName ++ "' is not in camel case.".
Proof.
  intros H.
  apply Identifier_outcome in H as [-> | [-> (n & r & Hn & Hr & _)]];
    [now left|].
  destruct (in_dec Nat.eq_dec node (reported st)) as [Hin | Hout].
  - left. now apply report_known.
  - right. exists n, r. rewrite report_new by assumption.
    unfold nameOf. rewrite Hn, Hr. repeat split; assumption.
Qed.

Lemma violation_carries_raw_name_witness :
  exists n rawName,
      nth_error (assignTo "__opt_first_name") 3 = Some n
      /\ name n = Some rawName
      /\ ~ In 3%nat (reported initialState)
      /\ reported (mkState [3%nat]
                     [mkViolation 3 template (Some "__opt_first_name")])
         = (reported initialState ++ [3%nat])%list
      /\ messages (mkState [3%nat]
                     [mkViolation 3 template (Some "__opt_first_name")])
         = (messages initialState
            ++ [mkViolation 3 template (Some rawName)])%list
      /\ rendered (mkViolation 3 template (Some rawName))
         = "Identifier '" ++ rawName ++ "' is not in camel case.".
Proof.
  destruct (violation_carries_raw_name asciiToUpperCase cfgOptPrefixes
              (assignTo "__opt_first_name") 3 initialState
              (mkState [3%nat]
                 [mkViolation 3 template (Some "__opt_first_name")])
              eq_refl) as [H | H].
  - discriminate H.
  - exact H.
Defined.

(** X18. A traversal only adds: the [reported] array and the emitted
    records of the state it starts from are kept, in order, at the
    head of those it ends with, and everything added references a
    node of the visit list. This holds also when the traversal ends
    with an exception. *)
Theorem traversal_only_adds (toUpperCase : string -> string)
  (cfg : Config) (ast : AST) (visits : list NodeRef) (st : RuleState) :
  (exists r,
      reported (fst (traverse toUpperCase cfg ast visits st))
      = (reported st ++ r)%list /\ incl r visits)
  /\ (exists m,
         messages (fst (traverse toUpperCase cfg ast visits st))
         = (messages st ++ m)%list /\ incl (map v_node m) visits).
Proof. apply traverse_grows. Qed.


(** X20. A literal prefix and a literal suffix compose: on a name
    with no underscore at its ends that is the prefix, a middle part
    that is not empty and the suffix, the checkable name is the
    middle part. When the middle part is empty the prefix is
    stripped and the suffix, being the whole remainder, is kept. *)
Theorem literal_prefix_then_suffix (policy : Value)
  (exc : option (list Allowed)) (p mid s : string) :
  noLeadingUnderscore (p ++ mid ++ s) ->
  (forall b, p ++ mid ++ s <> b ++ "_") ->
  (mid <> EmptyString ->
   checkableName (mkConfig policy (Some [AString p]) (Some [AString s]) exc)
     (p ++ mid ++ s) = mid)
  /\ (mid = EmptyString -> s <> EmptyString ->
      checkableName
        (mkConfig policy (Some [AString p]) (Some [AString s]) exc)
        (p ++ mid ++ s) = s).
Proof.
  intros Hl Ht. unfold checkableName.
  cbn [allowedPrefixes allowedSuffixes].
  rewrite replaceEdgeUnderscores_fixed by assumption.
  assert (Hge : forall x, 0 <= x -> (x >=? 0) = true)
    by (intros x Hx; rewrite Z.geb_leb; now apply Z.leb_le).
  split.
  - intros Hmid.
    assert (Hrest : mid ++ s <> EmptyString)
      by (destruct mid; [congruence | discriminate]).
    cbn [removePrefix startAfter].
    rewrite startAfterStringPrefix_found by assumption.
    rewrite Hge by apply len_nonneg.
    rewrite substr_from by apply len_nonneg.
    rewrite to_nat_len, drop_append.
    cbn [removeSuffix endBefore].
    rewrite endBeforeStringSuffix_found by assumption.
    rewrite Hge by apply len_nonneg.
    rewrite substr_upto by apply len_nonneg.
    rewrite to_nat_len. apply take_append.
  - intros -> Hs. cbn [append].
    cbn [removePrefix startAfter].
    rewrite startAfterStringPrefix_found by assumption.
    rewrite Hge by apply len_nonneg.
    rewrite substr_from by apply len_nonneg.
    rewrite to_nat_len, drop_append.
    cbn [removeSuffix endBefore].
    now rewrite endBeforeStringSuffix_whole.
Qed.

Lemma literal_prefix_then_suffix_witness :
  checkableName
    (mkConfig (Str "always") (Some [AString "opt_"]) (Some [AString "_ms"])
       None) "opt_camelCase_ms" = "camelCase".
Proof.
  apply (proj1 (literal_prefix_then_suffix (Str "always") None
                  "opt_" "camelCase" "_ms" eq_refl
                  ltac:(intros b H; vm_compute in H;
                        repeat (destruct b as [|? b];
                                [discriminate H
                                |injection H as _ H]);
                        destruct b; discriminate H))).
  discriminate.
Defined.

(** X21. An empty string listed as a prefix (or suffix) counts as a
    match on every value that is not empty: it strips nothing and
    ends the search, so the prefixes (or suffixes) listed after it
    are never applied. *)
Theorem empty_literal_shadows (value : string) (others : list Allowed) :
  value <> EmptyString ->
  removePrefix value (AString "" :: others) = value
  /\ removeSuffix value (AString "" :: others) = value.
Proof.
  intros Hv. pose proof (nonempty_len value Hv) as Hl. split.
  - pose proof (startAfterStringPrefix_found "" value Hv
                : startAfterStringPrefix value "" = 0) as H.
    cbn [removePrefix startAfter]. rewrite H.
    change (0 >=? 0) with true. cbv iota.
    now rewrite substr_from by lia.
  - assert (H : endBeforeStringSuffix value "" = len value).
    { pose proof (endBeforeStringSuffix_found value "" Hv) as H.
      now rewrite append_empty_r in H. }
    cbn [removeSuffix endBefore]. rewrite H.
    destruct (len value >=? 0) eqn:E;
      [|rewrite Z.geb_leb in E; apply Z.leb_gt in E; lia].
    rewrite substr_upto by lia. rewrite to_nat_len.
    apply take_all. lia.
Qed.

Lemma empty_literal_shadows_witness :
  removePrefix "opt_id" [AString ""; AString "opt_"] = "opt_id"
  /\ removeSuffix "id_ms" [AString ""; AString "_ms"] = "id_ms".
Proof.
  split.
  - apply (proj1 (empty_literal_shadows "opt_id" [AString "opt_"]
                    ltac:(discriminate))).
  - apply (proj2 (empty_literal_shadows "id_ms" [AString "_ms"]
                    ltac:(discriminate))).
Defined.

(** X22. On a tree of the shape the parser gives (every reference
    leads to a node, identifiers have a name and a parent, member
    accesses an object, a property and a parent, assignments their
    two sides), the handler never throws: every call on an
    identifier returns, under every configuration, and a traversal
    of identifiers ends without exception. *)
Theorem no_exception_on_well_formed_tree (toUpperCase : string -> string)
  (cfg : Config) (ast : AST) :
  wellFormed ast = true ->
  (forall node n st,
      nth_error ast node = Some n -> type n = "Identifier" ->
      exists st', Identifier toUpperCase cfg ast node st = Normal st')
  /\ (forall visits st,
         (forall node, In node visits ->
                       exists n, nth_error ast node = Some n
                                 /\ type n = "Identifier") ->
         snd (traverse toUpperCase cfg ast visits st) = None).
Proof.
  intros Hwf. split.
  - intros node n st Hn Hty. eapply Identifier_returns; eassumption.
  - intros visits st H. now apply traverse_returns.
Qed.

Lemma no_exception_on_well_formed_tree_witness :
  snd (walk cfgOptPrefixes memberToMember memberToMemberVisits initialState)
  = None.
Proof.
  apply (proj2 (no_exception_on_well_formed_tree asciiToUpperCase
                  cfgOptPrefixes memberToMember eq_refl)
           memberToMemberVisits initialState).
  intros node [<- | [<- | [<- | [<- | []]]]]; eexists; split; reflexivity.
Defined.
